(** * APICoffee: a shallow embedding of [main.py]

    The service is a Flask application over one SQLite table, [cafe].
    Every view function is embedded as a pure function from the request and
    the table contents to an outcome and the table contents after the
    request.  The table is the only state that survives a request. *)

From Stdlib Require Import ZArith List String Ascii Bool Lia.
From Stdlib Require Import Sorting.Sorted Sorting.Permutation.
Import ListNotations.

Local Open Scope string_scope.
Local Open Scope Z_scope.

(** ** JSON values, as [jsonify] receives them *)

#[warnings="-register-all"]
Inductive json : Type :=
| JNull
| JBool (b : bool)
| JInt (z : Z)
| JStr (s : string)
| JArr (items : list json)
| JObj (members : list (string * json)).

(** ** Outcome of a view function

    A view either returns a body with a status, or leaves through
    werkzeug's [abort] (an [HTTPException] carrying the status code, which
    Flask renders with its own default page, not with a body of this
    program), or leaves through an exception nobody catches. *)

Inductive exn : Type :=
| IndexError
| IntegrityError
| OverflowError.

Inductive result (A : Type) : Type :=
| Ok (a : A)
| HTTPException (code : Z)
| Uncaught (e : exn).

Arguments Ok {A} a.
Arguments HTTPException {A} code.
Arguments Uncaught {A} e.

Definition bind {A B : Type} (m : result A) (k : A -> result B) : result B :=
  match m with
  | Ok a => k a
  | HTTPException code => HTTPException code
  | Uncaught e => Uncaught e
  end.

Notation "x <- m ;; k" := (bind m (fun x => k))
  (at level 61, m at next level, right associativity).

Definition response : Type := (json * Z)%type.

(** The status line the client sees, when there is one that the source
    determines: the returned status, or the code of the [HTTPException]. *)
Definition status_code (r : result response) : option Z :=
  match r with
  | Ok (_, st) => Some st
  | HTTPException code => Some code
  | Uncaught _ => None
  end.

(** ** The [Cafe] model (lines 35-52) *)

Record Cafe : Type := mkCafe {
  id : Z;
  name : string;
  map_url : string;
  img_url : string;
  location : string;
  seats : string;
  has_toilet : bool;
  has_wifi : bool;
  has_sockets : bool;
  can_take_calls : bool;
  coffee_price : option string
}.

(** A Python value that is [None] or a [str]. *)
Definition pystr : Type := option string.

Definition json_of_pystr (v : pystr) : json :=
  match v with
  | Some s => JStr s
  | None => JNull
  end.

(** [Cafe.to_dict]: one entry per column, in the order of the columns. *)
Definition to_dict (self : Cafe) : json :=
  JObj [ ("id", JInt (id self));
         ("name", JStr (name self));
         ("map_url", JStr (map_url self));
         ("img_url", JStr (img_url self));
         ("location", JStr (location self));
         ("seats", JStr (seats self));
         ("has_toilet", JBool (has_toilet self));
         ("has_wifi", JBool (has_wifi self));
         ("has_sockets", JBool (has_sockets self));
         ("can_take_calls", JBool (can_take_calls self));
         ("coffee_price", json_of_pystr (coffee_price self)) ].

(** ** The request

    [request.args] and [request.form] are multi-dicts: [get] returns the
    first value stored under the key, [None] when there is none. *)

Definition multidict : Type := list (string * string).

Fixpoint md_get (key : string) (d : multidict) : pystr :=
  match d with
  | [] => None
  | (k, v) :: rest => if String.eqb k key then Some v else md_get key rest
  end.

Record Request : Type := mkRequest {
  args : multidict;
  form : multidict
}.

(** Python's [==] between a value that is [None] or a [str] and a string
    literal. *)
Definition py_eq (v : pystr) (lit : string) : bool :=
  match v with
  | Some s => String.eqb s lit
  | None => false
  end.

(** Python's [bool] on a value that is [None] or a [str]. *)
Definition py_bool (v : pystr) : bool :=
  match v with
  | None => false
  | Some EmptyString => false
  | Some (String _ _) => true
  end.

(** ** The table

    Rows in storage order.  The columns declared [nullable=False] hold
    strings, [coffee_price] may be NULL. *)

Definition Table : Type := list Cafe.

(** [db.select(Cafe)] *)
Definition select_all (db : Table) : list Cafe := db.

(** [ORDER BY name]: a stable insertion sort on the byte-wise lexical order
    of the names (SQLite's default BINARY collation). *)
Fixpoint insert_by_name (c : Cafe) (sorted : list Cafe) : list Cafe :=
  match sorted with
  | [] => [c]
  | d :: rest =>
      if String.leb (name c) (name d) then c :: d :: rest
      else d :: insert_by_name c rest
  end.

Fixpoint order_by_name (rows : list Cafe) : list Cafe :=
  match rows with
  | [] => []
  | c :: rest => insert_by_name c (order_by_name rest)
  end.

(** [Cafe.location == v] as SQL: equality on text is exact; a [None]
    parameter compiles to [IS NULL], which no row of a NOT NULL column
    satisfies. *)
Definition location_is (v : pystr) (c : Cafe) : bool :=
  match v with
  | Some s => String.eqb (location c) s
  | None => false
  end.

(** [db.session.get(Cafe, ident)]: the row with that primary key. *)
Definition session_get (db : Table) (ident : Z) : option Cafe :=
  find (fun c => Z.eqb (id c) ident) db.

(** The integers SQLite stores and that [sqlite3] accepts as a parameter
    of a statement: 64 bits, signed. *)
Definition sqlite_integer (z : Z) : bool :=
  Z.leb (- 2 ^ 63) z && Z.ltb z (2 ^ 63).

(** [db.get_or_404(Cafe, ident)]: [session.get] runs a SELECT with [ident]
    as its parameter and [abort(404)] follows when it finds nothing.
    [sqlite3] refuses a parameter that is not a 64-bit integer with an
    [OverflowError], which nobody catches, before the SELECT runs.  The
    ids of stored rows are 64-bit integers, so a refused [ident] is never
    the id of a stored row and the two tests give the same outcome in
    either order ([get_or_404_bind_first]); the lookup is written first, so
    that nothing has to be assumed of the list that stands for the table. *)
Definition get_or_404 (db : Table) (ident : Z) : result Cafe :=
  match session_get db ident with
  | Some c => Ok c
  | None =>
      if sqlite_integer ident then HTTPException 404
      else Uncaught OverflowError
  end.

(** Truth value of a model instance: [Cafe] defines neither [__bool__] nor
    [__len__], so every instance is true. *)
Definition cafe_truthy (c : Cafe) : bool := true.

(** The object built by [Cafe(...)] before it is flushed: every attribute
    holds what the caller passed, [None] included, and there is no id yet. *)
Record NewCafe : Type := mkNewCafe {
  new_name : pystr;
  new_map_url : pystr;
  new_img_url : pystr;
  new_location : pystr;
  new_has_sockets : bool;
  new_has_toilet : bool;
  new_has_wifi : bool;
  new_can_take_calls : bool;
  new_seats : pystr;
  new_coffee_price : pystr
}.

(** The id of an inserted row: one more than the largest id, 1 in an empty
    table. *)
Definition next_id (db : Table) : Z :=
  match map id db with
  | [] => 1
  | x :: xs => 1 + fold_right Z.max x xs
  end.

Definition name_taken (db : Table) (n : string) : bool :=
  existsb (fun c => String.eqb (name c) n) db.

(** [db.session.add(new_cafe); db.session.commit()]: the INSERT fails with
    an [IntegrityError] on a NULL in a NOT NULL column or on a name that is
    already stored; otherwise the row is appended under a fresh id. *)
Definition commit_add (nc : NewCafe) (db : Table) : result Table :=
  match new_name nc, new_map_url nc, new_img_url nc,
        new_location nc, new_seats nc with
  | Some n, Some m, Some i, Some l, Some s =>
      if name_taken db n then Uncaught IntegrityError
      else Ok (app db [ {| id := next_id db;
                          name := n;
                          map_url := m;
                          img_url := i;
                          location := l;
                          seats := s;
                          has_toilet := new_has_toilet nc;
                          has_wifi := new_has_wifi nc;
                          has_sockets := new_has_sockets nc;
                          can_take_calls := new_can_take_calls nc;
                          coffee_price := new_coffee_price nc |} ])
  | _, _, _, _, _ => Uncaught IntegrityError
  end.

Definition set_coffee_price (c : Cafe) (p : pystr) : Cafe :=
  {| id := id c;
     name := name c;
     map_url := map_url c;
     img_url := img_url c;
     location := location c;
     seats := seats c;
     has_toilet := has_toilet c;
     has_wifi := has_wifi c;
     has_sockets := has_sockets c;
     can_take_calls := can_take_calls c;
     coffee_price := p |}.

(** [cafe.coffee_price = p; db.session.commit()]: UPDATE ... WHERE id = ? *)
Definition commit_price (cafe : Cafe) (p : pystr) (db : Table) : Table :=
  map (fun c => if Z.eqb (id c) (id cafe) then set_coffee_price c p else c) db.

(** [db.session.delete(cafe); db.session.commit()]: DELETE ... WHERE id = ? *)
Definition commit_delete (cafe : Cafe) (db : Table) : Table :=
  filter (fun c => negb (Z.eqb (id c) (id cafe))) db.

(** [random.choice(seq)]: [IndexError] on an empty sequence, otherwise
    [seq[_randbelow(len(seq))]].  The draw of the generator is the
    argument [entropy]. *)
Definition randbelow (entropy : nat) (n : nat) : nat := Nat.modulo entropy n.

Definition random_choice {A : Type} (entropy : nat) (seq : list A) : result A :=
  match seq with
  | [] => Uncaught IndexError
  | _ :: _ =>
      match nth_error seq (randbelow entropy (List.length seq)) with
      | Some x => Ok x
      | None => Uncaught IndexError
      end
  end.

(** ** The view functions *)

(** [jsonify(key=value)] *)
Definition jsonify (key : string) (value : json) : json := JObj [(key, value)].

Definition handler : Type := Request -> Table -> result response * Table.

(** GET /random (lines 63-71) *)
Definition get_random_cafe (entropy : nat) : handler := fun request db =>
  let all_cafes := select_all db in
  (random_cafe <- random_choice entropy all_cafes ;;
   Ok (jsonify "cafe" (to_dict random_cafe), 200),
   db).

(** GET /all (lines 73-80) *)
Definition get_all_cafes : handler := fun request db =>
  let all_cafes := order_by_name (select_all db) in
  (Ok (jsonify "cafes" (JArr (map to_dict all_cafes)), 200), db).

(** GET /search (lines 82-95) *)
Definition get_cafe_at_location : handler := fun request db =>
  let query_location := md_get "loc" (args request) in
  let all_cafes := filter (location_is query_location) (select_all db) in
  match all_cafes with
  | _ :: _ => (Ok (jsonify "cafes" (JArr (map to_dict all_cafes)), 200), db)
  | [] =>
      (Ok (jsonify "error"
             (JObj [("Not Found",
                     JStr "Sorry, we don't have a cafe at that location.")]),
           404), db)
  end.

(** POST /add (lines 97-116) *)
Definition build_cafe (request : Request) : NewCafe :=
  {| new_name := md_get "name" (form request);
     new_map_url := md_get "map_url" (form request);
     new_img_url := md_get "img_url" (form request);
     new_location := md_get "loc" (form request);
     new_has_sockets := py_bool (md_get "sockets" (form request));
     new_has_toilet := py_bool (md_get "toilet" (form request));
     new_has_wifi := py_bool (md_get "wifi" (form request));
     new_can_take_calls := py_bool (md_get "calls" (form request));
     new_seats := md_get "seats" (form request);
     new_coffee_price := md_get "coffee_price" (form request) |}.

Definition post_new_cafe : handler := fun request db =>
  let new_cafe := build_cafe request in
  match commit_add new_cafe db with
  | Ok db' =>
      (Ok (jsonify "response"
             (JObj [("success", JStr "Successfully added the new cafe.")]),
           200), db')
  | HTTPException code => (HTTPException code, db)
  | Uncaught e => (Uncaught e, db)
  end.

(** PATCH /update-price/<int:cafe_id> (lines 118-130) *)
Definition patch_new_price (cafe_id : Z) : handler := fun request db =>
  let new_price := md_get "new_price" (args request) in
  match get_or_404 db cafe_id with
  | Ok cafe =>
      if cafe_truthy cafe then
        (Ok (jsonify "response"
               (JObj [("success", JStr "Successfully updated the price.")]),
             200),
         commit_price cafe new_price db)
      else
        (Ok (jsonify "error"
               (JObj [("Not Found",
                       JStr "Sorry a cafe with that id was not found in the database.")]),
             404), db)
  | HTTPException code => (HTTPException code, db)
  | Uncaught e => (Uncaught e, db)
  end.

(** DELETE /report-closed/<int:cafe_id> (lines 132-148) *)
Definition delete_cafe (cafe_id : Z) : handler := fun request db =>
  let api_key := md_get "api-key" (args request) in
  if py_eq api_key "TopSecretAPIKey" then
      match get_or_404 db cafe_id with
      | Ok cafe =>
          if cafe_truthy cafe then
            (Ok (jsonify "response"
                   (JObj [("success",
                           JStr "Successfully deleted the cafe from the database.")]),
                 200),
             commit_delete cafe db)
          else
            (Ok (jsonify "error"
                   (JObj [("Not Found",
                           JStr "Sorry a cafe with that id was not found in the database.")]),
                 404), db)
      | HTTPException code => (HTTPException code, db)
      | Uncaught e => (Uncaught e, db)
      end
  else
      (Ok (jsonify "error"
             (JObj [("Forbidden",
                     JStr "Sorry, that's not allowed. Make sure you have the correct api_key.")]),
           403), db).

(** ** Order and invariant

    The order of [ORDER BY name], and the uniqueness of the primary key and
    of the names that the table declares. *)

Definition name_le (a b : Cafe) : Prop := String.leb (name a) (name b) = true.

Definition wf (db : Table) : Prop :=
  NoDup (map id db) /\ NoDup (map name db).

(** Every view function keeps the invariant. *)
Definition keeps_wf (h : handler) : Prop :=
  forall request db, wf db -> wf (snd (h request db)).

(** ** Sample data *)

Definition joes : Cafe :=
  {| id := 1; name := "Joe's"; map_url := "http://x"; img_url := "http://y";
     location := "Springfield"; seats := "10";
     has_toilet := false; has_wifi := false; has_sockets := true;
     can_take_calls := false; coffee_price := None |}.

Definition moes : Cafe :=
  {| id := 2; name := "Moe's"; map_url := "http://m"; img_url := "http://n";
     location := "Shelbyville"; seats := "20-30";
     has_toilet := true; has_wifi := true; has_sockets := false;
     can_take_calls := true; coffee_price := Some "2.50" |}.

Definition alba : Cafe :=
  {| id := 3; name := "Alba"; map_url := "http://a"; img_url := "http://b";
     location := "Springfield"; seats := "0-10";
     has_toilet := true; has_wifi := false; has_sockets := false;
     can_take_calls := false; coffee_price := Some "3" |}.

Definition sample_db : Table := [joes; moes; alba].

Definition with_args (a : multidict) : Request := {| args := a; form := [] |}.

Definition joes_form : Request :=
  {| args := [];
     form := [("name", "Joe's"); ("map_url", "http://x"); ("img_url", "http://y");
              ("loc", "Springfield"); ("seats", "10"); ("sockets", "1")] |}.

Definition odd_form : Request :=
  {| args := [];
     form := [("name", "Odd"); ("map_url", "http://o"); ("img_url", "http://p");
              ("loc", "Ogdenville"); ("seats", "5");
              ("sockets", "false"); ("toilet", "0"); ("wifi", "")] |}.

(** ** The routes

    The URL map built by the [@app.route] decorators, for the views that
    answer in JSON.  The [int] converter of the two parametrised routes
    accepts digits only, so the id a view receives is never negative. *)

Inductive Call : Type :=
| CallRandom (entropy : nat)
| CallAll
| CallSearch
| CallAdd
| CallUpdatePrice (cafe_id : N)
| CallReportClosed (cafe_id : N).

Definition dispatch (call : Call) : handler :=
  match call with
  | CallRandom entropy => get_random_cafe entropy
  | CallAll => get_all_cafes
  | CallSearch => get_cafe_at_location
  | CallAdd => post_new_cafe
  | CallUpdatePrice cafe_id => patch_new_price (Z.of_N cafe_id)
  | CallReportClosed cafe_id => delete_cafe (Z.of_N cafe_id)
  end.

(** The table after a sequence of requests, served one after the other. *)
Fixpoint serve (calls : list (Call * Request)) (db : Table) : Table :=
  match calls with
  | [] => db
  | (call, request) :: rest => serve rest (snd (dispatch call request db))
  end.

(** Two rows that agree on every column but [coffee_price]. *)
Definition same_except_price (c d : Cafe) : Prop :=
  id d = id c /\ name d = name c /\ map_url d = map_url c
  /\ img_url d = img_url c /\ location d = location c /\ seats d = seats c
  /\ has_toilet d = has_toilet c /\ has_wifi d = has_wifi c
  /\ has_sockets d = has_sockets c /\ can_take_calls d = can_take_calls c.

Definition secret_request : Request :=
  {| args := [("api-key", "TopSecretAPIKey")]; form := [] |}.

(** * Properties *)

(** ** Small facts about the Python values *)

Lemma py_eq_true_iff (v : pystr) (lit : string) :
  py_eq v lit = true <-> v = Some lit.
Proof.
  destruct v as [s|]; simpl.
  - rewrite String.eqb_eq. split; [intros ->; reflexivity | congruence].
  - split; discriminate.
Qed.

Lemma py_eq_false_iff (v : pystr) (lit : string) :
  py_eq v lit = false <-> v <> Some lit.
Proof.
  rewrite <- py_eq_true_iff. destruct (py_eq v lit); split; congruence.
Qed.

Lemma py_bool_true_iff (v : pystr) :
  py_bool v = true <-> exists s, v = Some s /\ s <> "".
Proof.
  destruct v as [[|a s]|]; simpl; split.
  - discriminate.
  - intros (s & E & N). inversion E; subst. now elim N.
  - intros _. eexists; split; [reflexivity | discriminate].
  - reflexivity.
  - discriminate.
  - intros (s & E & _). discriminate.
Qed.

Lemma py_bool_false_iff (v : pystr) :
  py_bool v = false <-> v = None \/ v = Some "".
Proof.
  destruct v as [[|a s]|]; simpl; split; auto; try discriminate.
  intros [E|E]; discriminate.
Qed.

(** ** Looking a row up by its primary key *)

Lemma session_get_Some (db : Table) (ident : Z) (c : Cafe) :
  session_get db ident = Some c -> In c db /\ id c = ident.
Proof.
  unfold session_get. intros H. apply find_some in H.
  destruct H as [Hin Heq]. split; [assumption | now apply Z.eqb_eq].
Qed.

Lemma session_get_None (db : Table) (ident : Z) :
  session_get db ident = None <-> (forall c, In c db -> id c <> ident).
Proof.
  unfold session_get. split.
  - intros H c Hin. apply (find_none _ _ H) in Hin. now apply Z.eqb_neq.
  - induction db as [|d db IH]; intros H; simpl; [reflexivity|].
    destruct (Z.eqb_spec (id d) ident) as [E|_].
    + exfalso. apply (H d); [now left | exact E].
    + apply IH. intros c Hc. apply H. now right.
Qed.

Lemma session_get_present (db : Table) (ident : Z) (c : Cafe) :
  In c db -> id c = ident -> exists d, session_get db ident = Some d.
Proof.
  intros Hin Hid. destruct (session_get db ident) as [d|] eqn:E.
  - now exists d.
  - rewrite session_get_None in E. now elim (E c Hin).
Qed.

Lemma get_or_404_absent (db : Table) (ident : Z) :
  (forall c, In c db -> id c <> ident) ->
  get_or_404 db ident =
  if sqlite_integer ident then HTTPException 404 else Uncaught OverflowError.
Proof.
  intros H. unfold get_or_404. apply session_get_None in H. now rewrite H.
Qed.

Lemma sqlite_integer_true_iff (z : Z) :
  sqlite_integer z = true <-> - 2 ^ 63 <= z < 2 ^ 63.
Proof.
  unfold sqlite_integer. rewrite andb_true_iff, Z.leb_le, Z.ltb_lt. tauto.
Qed.

Lemma sqlite_integer_false_iff (z : Z) :
  sqlite_integer z = false <-> ~ (- 2 ^ 63 <= z < 2 ^ 63).
Proof.
  rewrite <- sqlite_integer_true_iff. destruct (sqlite_integer z); split;
    congruence.
Qed.

(** On a table whose ids are 64-bit integers, it makes no difference that
    the parameter is refused before the SELECT runs. *)
Lemma get_or_404_bind_first (db : Table) (ident : Z) :
  Forall (fun c => sqlite_integer (id c) = true) db ->
  get_or_404 db ident =
  if sqlite_integer ident then
    match session_get db ident with
    | Some c => Ok c
    | None => HTTPException 404
    end
  else Uncaught OverflowError.
Proof.
  intros Hdb. unfold get_or_404.
  destruct (session_get db ident) as [c|] eqn:G; [|now destruct (sqlite_integer ident)].
  apply session_get_Some in G. destruct G as [Hin <-].
  rewrite Forall_forall in Hdb. now rewrite (Hdb c Hin).
Qed.

(** A request for an id that no row has changes nothing and is never
    answered by the view's own return statements. *)
Lemma patch_new_price_absent_cases (cafe_id : Z) (request : Request) (db : Table) :
  (forall c, In c db -> id c <> cafe_id) ->
  patch_new_price cafe_id request db =
  (if sqlite_integer cafe_id then HTTPException 404 else Uncaught OverflowError,
   db).
Proof.
  intros Habsent. unfold patch_new_price.
  rewrite (get_or_404_absent _ _ Habsent).
  now destruct (sqlite_integer cafe_id).
Qed.

Lemma delete_cafe_absent_cases (cafe_id : Z) (request : Request) (db : Table) :
  md_get "api-key" (args request) = Some "TopSecretAPIKey" ->
  (forall c, In c db -> id c <> cafe_id) ->
  delete_cafe cafe_id request db =
  (if sqlite_integer cafe_id then HTTPException 404 else Uncaught OverflowError,
   db).
Proof.
  intros Hkey Habsent. apply py_eq_true_iff in Hkey.
  unfold delete_cafe. rewrite Hkey, (get_or_404_absent _ _ Habsent).
  now destruct (sqlite_integer cafe_id).
Qed.

(** ** The table after a DELETE *)

Lemma commit_delete_In (cafe : Cafe) (db : Table) (d : Cafe) :
  In d (commit_delete cafe db) <-> In d db /\ id d <> id cafe.
Proof.
  unfold commit_delete. rewrite filter_In, negb_true_iff, Z.eqb_neq. tauto.
Qed.

Lemma commit_delete_get (cafe : Cafe) (db : Table) :
  session_get (commit_delete cafe db) (id cafe) = None.
Proof.
  apply session_get_None. intros c Hc. now apply commit_delete_In in Hc.
Qed.

Lemma commit_delete_length (cafe : Cafe) (db : Table) :
  NoDup (map id db) -> In cafe db ->
  S (List.length (commit_delete cafe db)) = List.length db.
Proof.
  unfold commit_delete.
  induction db as [|d db IH]; simpl; intros Hnd Hin; [contradiction|].
  inversion Hnd as [|x xs Hnotin Hnd']; subst.
  destruct (Z.eqb_spec (id d) (id cafe)) as [E|N]; simpl.
  - f_equal. clear IH. rewrite E in Hnotin.
    assert (Hall : forall c, In c db -> negb (Z.eqb (id c) (id cafe)) = true).
    { intros c Hc. rewrite negb_true_iff, Z.eqb_neq. intros E'.
      apply Hnotin. rewrite <- E'. now apply in_map. }
    clear - Hall. induction db as [|e db IH]; simpl; [reflexivity|].
    rewrite Hall by now left. simpl. f_equal. apply IH.
    intros c Hc. apply Hall. now right.
  - f_equal. apply IH; [assumption|].
    destruct Hin as [->|Hin]; [now elim N | assumption].
Qed.

(** ** The table after an UPDATE of the price *)

Lemma commit_price_get (cafe : Cafe) (p : pystr) (db : Table) (ident : Z) :
  session_get (commit_price cafe p db) ident =
  match session_get db ident with
  | Some c => Some (if Z.eqb (id c) (id cafe) then set_coffee_price c p else c)
  | None => None
  end.
Proof.
  unfold session_get, commit_price.
  induction db as [|d db IH]; simpl; [reflexivity|].
  assert (Hid : id (if Z.eqb (id d) (id cafe) then set_coffee_price d p else d) = id d)
    by (destruct (Z.eqb (id d) (id cafe)); reflexivity).
  rewrite Hid. destruct (Z.eqb (id d) ident); [reflexivity | exact IH].
Qed.

Lemma commit_price_other (cafe : Cafe) (p : pystr) (db : Table) (d : Cafe) :
  id d <> id cafe -> (In d (commit_price cafe p db) <-> In d db).
Proof.
  intros N. unfold commit_price. rewrite in_map_iff. split.
  - intros (c & E & Hc). destruct (Z.eqb_spec (id c) (id cafe)) as [Ec|_].
    + subst d. now elim N.
    + now subst d.
  - intros Hd. exists d. split; [|assumption].
    destruct (Z.eqb_spec (id d) (id cafe)); [contradiction | reflexivity].
Qed.

Lemma commit_price_ids (cafe : Cafe) (p : pystr) (db : Table) :
  map id (commit_price cafe p db) = map id db.
Proof.
  unfold commit_price. rewrite map_map. apply map_ext.
  intros c. destruct (Z.eqb (id c) (id cafe)); reflexivity.
Qed.

Lemma commit_price_In (cafe : Cafe) (p : pystr) (db : Table) (c : Cafe) :
  In c db -> id c = id cafe -> In (set_coffee_price c p) (commit_price cafe p db).
Proof.
  intros Hin Hid. unfold commit_price. apply in_map_iff. exists c.
  split; [|assumption]. apply Z.eqb_eq in Hid. now rewrite Hid.
Qed.

Lemma commit_price_hit (cafe : Cafe) (p : pystr) (db : Table) (d : Cafe) :
  In d (commit_price cafe p db) -> id d = id cafe -> coffee_price d = p.
Proof.
  unfold commit_price. rewrite in_map_iff. intros (c & E & _) Hid.
  destruct (Z.eqb_spec (id c) (id cafe)) as [_|N]; subst d;
    [reflexivity | contradiction].
Qed.

(** ** The order of [ORDER BY name] *)

Lemma ascii_compare_N (a b : ascii) :
  Ascii.compare a b = N.compare (N_of_ascii a) (N_of_ascii b).
Proof. reflexivity. Qed.

Lemma string_leb_trans (s1 s2 s3 : string) :
  String.leb s1 s2 = true -> String.leb s2 s3 = true -> String.leb s1 s3 = true.
Proof.
  unfold String.leb. revert s2 s3.
  induction s1 as [|a s1 IH]; intros [|b s2] [|c s3]; simpl;
    try reflexivity; try discriminate.
  rewrite !ascii_compare_N.
  destruct (N.compare_spec (N_of_ascii a) (N_of_ascii b)) as [Eab|Lab|Gab];
    try discriminate;
    destruct (N.compare_spec (N_of_ascii b) (N_of_ascii c)) as [Ebc|Lbc|Gbc];
    try discriminate;
    destruct (N.compare_spec (N_of_ascii a) (N_of_ascii c)) as [Eac|Lac|Gac];
    try reflexivity; try (exfalso; lia); try apply IH.
Qed.

Lemma name_le_total (a b : Cafe) : name_le a b \/ name_le b a.
Proof. apply String.leb_total. Qed.

Lemma name_le_trans (a b c : Cafe) : name_le a b -> name_le b c -> name_le a c.
Proof. apply string_leb_trans. Qed.

Lemma insert_by_name_perm (c : Cafe) (rows : list Cafe) :
  Permutation (insert_by_name c rows) (c :: rows).
Proof.
  induction rows as [|d rows IH]; simpl.
  - apply Permutation_refl.
  - destruct (String.leb (name c) (name d)).
    + apply Permutation_refl.
    + eapply perm_trans; [apply perm_skip, IH | apply perm_swap].
Qed.

Lemma order_by_name_perm (rows : list Cafe) :
  Permutation (order_by_name rows) rows.
Proof.
  induction rows as [|c rows IH]; simpl.
  - apply perm_nil.
  - eapply perm_trans; [apply insert_by_name_perm | now apply perm_skip].
Qed.

Lemma insert_by_name_sorted (c : Cafe) (rows : list Cafe) :
  StronglySorted name_le rows -> StronglySorted name_le (insert_by_name c rows).
Proof.
  induction 1 as [|d rows Hs IH Hall]; simpl.
  - constructor; constructor.
  - destruct (String.leb (name c) (name d)) eqn:E.
    + constructor; [now constructor|].
      constructor; [exact E|].
      eapply Forall_impl; [|exact Hall].
      intros e Hde. now apply name_le_trans with d.
    + constructor; [exact IH|].
      apply (Permutation_Forall (Permutation_sym (insert_by_name_perm c rows))).
      constructor; [|exact Hall].
      destruct (name_le_total c d) as [H|H]; [|exact H].
      unfold name_le in H. congruence.
Qed.

Lemma order_by_name_sorted (rows : list Cafe) :
  StronglySorted name_le (order_by_name rows).
Proof.
  induction rows as [|c rows IH]; simpl.
  - constructor.
  - now apply insert_by_name_sorted.
Qed.

(** The sort is stable: rows that are not strictly out of order stay in
    the order of the table. *)
Lemma insert_by_name_head (c : Cafe) (rows : list Cafe) :
  Forall (name_le c) rows -> insert_by_name c rows = c :: rows.
Proof.
  intros H. destruct rows as [|d rows]; simpl; [reflexivity|].
  inversion H as [|x xs Hcd _]; subst. unfold name_le in Hcd. now rewrite Hcd.
Qed.

Lemma order_by_name_fixes_sorted (rows : list Cafe) :
  StronglySorted name_le rows -> order_by_name rows = rows.
Proof.
  induction 1 as [|c rows Hs IH Hall]; simpl; [reflexivity|].
  rewrite IH. now apply insert_by_name_head.
Qed.

(** ** The invariant is kept *)

Lemma fold_max_ge (x : Z) (xs : list Z) :
  x <= fold_right Z.max x xs /\ Forall (fun y => y <= fold_right Z.max x xs) xs.
Proof.
  induction xs as [|y xs [IH1 IH2]]; simpl.
  - split; [lia | constructor].
  - split; [lia|]. constructor; [lia|].
    eapply Forall_impl; [|exact IH2]. simpl. intros; lia.
Qed.

Lemma next_id_fresh (db : Table) (c : Cafe) : In c db -> id c < next_id db.
Proof.
  intros Hin. apply (in_map id) in Hin. unfold next_id.
  destruct (map id db) as [|x xs]; [contradiction|].
  destruct (fold_max_ge x xs) as [H1 H2]. destruct Hin as [<-|Hin]; [lia|].
  rewrite Forall_forall in H2. specialize (H2 _ Hin). lia.
Qed.

Lemma name_taken_false (db : Table) (n : string) :
  name_taken db n = false <-> ~ In n (map name db).
Proof.
  unfold name_taken. split.
  - intros H Hin. apply in_map_iff in Hin. destruct Hin as (c & E & Hc).
    assert (T : existsb (fun c => String.eqb (name c) n) db = true).
    { apply existsb_exists. exists c. split; [assumption|]. now apply String.eqb_eq. }
    congruence.
  - intros H. destruct (existsb _ db) eqn:E; [|reflexivity].
    apply existsb_exists in E. destruct E as (c & Hc & E).
    apply String.eqb_eq in E. elim H. rewrite <- E. now apply in_map.
Qed.

Lemma NoDup_snoc {A : Type} (l : list A) (x : A) :
  NoDup l -> ~ In x l -> NoDup (l ++ [x]).
Proof.
  intros Hnd Hx. apply NoDup_app; [assumption | repeat constructor; auto |].
  intros y Hy [<-|[]]. contradiction.
Qed.

Lemma commit_add_wf (nc : NewCafe) (db db' : Table) :
  wf db -> commit_add nc db = Ok db' -> wf db'.
Proof.
  intros [Hid Hname]. unfold commit_add.
  destruct (new_name nc) as [n|]; [|discriminate].
  destruct (new_map_url nc) as [m|]; [|discriminate].
  destruct (new_img_url nc) as [i|]; [|discriminate].
  destruct (new_location nc) as [l|]; [|discriminate].
  destruct (new_seats nc) as [s|]; [|discriminate].
  destruct (name_taken db n) eqn:T; [discriminate|].
  intros [= <-]. unfold wf. rewrite !map_app. simpl. split.
  - apply NoDup_snoc; [assumption|]. intros Hin. apply in_map_iff in Hin.
    destruct Hin as (c & E & Hc). apply next_id_fresh in Hc. lia.
  - apply NoDup_snoc; [assumption|]. now apply name_taken_false.
Qed.

Lemma commit_price_wf (cafe : Cafe) (p : pystr) (db : Table) :
  wf db -> wf (commit_price cafe p db).
Proof.
  intros [Hid Hname]. split.
  - now rewrite commit_price_ids.
  - replace (map name (commit_price cafe p db)) with (map name db); [assumption|].
    unfold commit_price. rewrite map_map. apply map_ext.
    intros c. destruct (Z.eqb (id c) (id cafe)); reflexivity.
Qed.

Lemma NoDup_map_filter {A B : Type} (f : A -> B) (keep : A -> bool) (l : list A) :
  NoDup (map f l) -> NoDup (map f (filter keep l)).
Proof.
  induction l as [|a l IH]; simpl; intros H; [constructor|].
  inversion H as [|x xs Hnotin Hnd]; subst.
  destruct (keep a); simpl; [|now apply IH].
  constructor; [|now apply IH].
  intros Hin. apply Hnotin. apply in_map_iff in Hin.
  destruct Hin as (b & E & Hb). apply filter_In in Hb.
  rewrite <- E. apply in_map. tauto.
Qed.

Lemma commit_delete_wf (cafe : Cafe) (db : Table) :
  wf db -> wf (commit_delete cafe db).
Proof.
  intros [Hid Hname]. split; now apply NoDup_map_filter.
Qed.

Lemma get_random_cafe_wf (entropy : nat) : keeps_wf (get_random_cafe entropy).
Proof. intros request db H. exact H. Qed.

Lemma get_all_cafes_wf : keeps_wf get_all_cafes.
Proof. intros request db H. exact H. Qed.

Lemma get_cafe_at_location_wf : keeps_wf get_cafe_at_location.
Proof.
  intros request db H. unfold get_cafe_at_location.
  destruct (filter _ _); exact H.
Qed.

Lemma post_new_cafe_wf : keeps_wf post_new_cafe.
Proof.
  intros request db H. unfold post_new_cafe.
  destruct (commit_add (build_cafe request) db) as [db'| |] eqn:E; simpl;
    [now apply (commit_add_wf _ _ _ H E) | exact H | exact H].
Qed.

Lemma patch_new_price_wf (cafe_id : Z) : keeps_wf (patch_new_price cafe_id).
Proof.
  intros request db H. unfold patch_new_price.
  destruct (get_or_404 db cafe_id); simpl;
    [now apply commit_price_wf | exact H | exact H].
Qed.

Lemma delete_cafe_wf (cafe_id : Z) : keeps_wf (delete_cafe cafe_id).
Proof.
  intros request db H. unfold delete_cafe.
  destruct (py_eq _ _); [|exact H].
  destruct (get_or_404 db cafe_id); simpl;
    [now apply commit_delete_wf | exact H | exact H].
Qed.

(** ** DELETE /report-closed *)

(** C1.  When the [api-key] parameter is not exactly the secret token (or
    is missing), DELETE /report-closed/<id> answers 403 with the fixed
    Forbidden body, leaves the table as it was, and the answer is the same
    on any two tables, so it does not reveal whether the id exists. *)
Theorem delete_cafe_forbidden :
  forall (cafe_id : Z) (request : Request) (db db2 : Table),
    md_get "api-key" (args request) <> Some "TopSecretAPIKey" ->
    delete_cafe cafe_id request db =
      (Ok (JObj [("error",
                  JObj [("Forbidden",
                         JStr "Sorry, that's not allowed. Make sure you have the correct api_key.")])],
           403),
       db)
    /\ fst (delete_cafe cafe_id request db) = fst (delete_cafe cafe_id request db2).
Proof.
  intros cafe_id request db db2 H. apply py_eq_false_iff in H.
  unfold delete_cafe. rewrite H. split; reflexivity.
Qed.

Lemma delete_cafe_forbidden_witness :
  md_get "api-key" (args (with_args [("api-key", "topsecretapikey")]))
    <> Some "TopSecretAPIKey"
  /\ snd (delete_cafe 1 (with_args [("api-key", "topsecretapikey")]) sample_db)
     = sample_db
  /\ fst (delete_cafe 1 (with_args [("api-key", "topsecretapikey")]) sample_db)
     = fst (delete_cafe 1 (with_args [("api-key", "topsecretapikey")]) []).
Proof.
  assert (H : md_get "api-key" (args (with_args [("api-key", "topsecretapikey")]))
              <> Some "TopSecretAPIKey") by (simpl; discriminate).
  split; [exact H|].
  destruct (delete_cafe_forbidden 1 _ sample_db [] H) as [E1 E2].
  split; [now rewrite E1 | exact E2].
Defined.

(** C4.  With the secret token: when a row has the id, DELETE
    /report-closed/<id> answers 200 with the success body and removes the
    rows of that id and no other (one row, as ids are unique), so that a
    later lookup of the id finds nothing.  When no row has the id the table
    is unchanged, but the answer is never the JSON not-found body, whose
    branch is not reached: the view leaves through the [HTTPException] of
    [get_or_404], with status 404, when the id is a 64-bit integer, and
    through an uncaught [OverflowError] when it is not. *)
Theorem delete_cafe_authorized :
  forall (cafe_id : Z) (request : Request) (db : Table),
    md_get "api-key" (args request) = Some "TopSecretAPIKey" ->
    (forall c, In c db -> id c = cafe_id ->
       fst (delete_cafe cafe_id request db) =
         Ok (JObj [("response",
                    JObj [("success",
                           JStr "Successfully deleted the cafe from the database.")])],
             200)
       /\ session_get (snd (delete_cafe cafe_id request db)) cafe_id = None
       /\ (forall d, In d (snd (delete_cafe cafe_id request db))
                     <-> In d db /\ id d <> cafe_id)
       /\ (NoDup (map id db) ->
           S (List.length (snd (delete_cafe cafe_id request db))) = List.length db))
    /\ ((forall c, In c db -> id c <> cafe_id) ->
        snd (delete_cafe cafe_id request db) = db
        /\ fst (delete_cafe cafe_id request db) <>
             Ok (JObj [("error",
                        JObj [("Not Found",
                               JStr "Sorry a cafe with that id was not found in the database.")])],
                 404)
        /\ (- 2 ^ 63 <= cafe_id < 2 ^ 63 ->
            delete_cafe cafe_id request db = (HTTPException 404, db)
            /\ status_code (fst (delete_cafe cafe_id request db)) = Some 404)
        /\ (~ (- 2 ^ 63 <= cafe_id < 2 ^ 63) ->
            delete_cafe cafe_id request db = (Uncaught OverflowError, db))).
Proof.
  intros cafe_id request db Hkey. split.
  - apply py_eq_true_iff in Hkey. unfold delete_cafe. rewrite Hkey.
    intros c Hin Hid. destruct (session_get_present db cafe_id c Hin Hid) as [d Hd].
    unfold get_or_404. rewrite Hd. simpl.
    destruct (session_get_Some _ _ _ Hd) as [Hdin Hdid].
    split; [reflexivity|]. split; [|split].
    + rewrite <- Hdid. apply commit_delete_get.
    + intros e. rewrite <- Hdid. apply commit_delete_In.
    + intros Hnd. now apply commit_delete_length.
  - intros Habsent. rewrite (delete_cafe_absent_cases _ _ _ Hkey Habsent).
    split; [reflexivity|]. split; [|split].
    + simpl. destruct (sqlite_integer cafe_id); discriminate.
    + intros Hin. apply sqlite_integer_true_iff in Hin. rewrite Hin.
      split; reflexivity.
    + intros Hout. apply sqlite_integer_false_iff in Hout. now rewrite Hout.
Qed.

Lemma delete_cafe_authorized_witness :
  md_get "api-key" (args (with_args [("api-key", "TopSecretAPIKey")]))
    = Some "TopSecretAPIKey"
  /\ snd (delete_cafe 2 (with_args [("api-key", "TopSecretAPIKey")]) sample_db)
     = [joes; alba]
  /\ delete_cafe 7 (with_args [("api-key", "TopSecretAPIKey")]) sample_db
     = (HTTPException 404, sample_db)
  /\ delete_cafe (2 ^ 63) (with_args [("api-key", "TopSecretAPIKey")]) sample_db
     = (Uncaught OverflowError, sample_db).
Proof.
  split; [reflexivity|]. split; [reflexivity|]. split.
  - destruct (delete_cafe_authorized 7 (with_args [("api-key", "TopSecretAPIKey")])
                sample_db eq_refl) as [_ Habsent].
    apply Habsent.
    + intros c Hin. simpl in Hin.
      destruct Hin as [<-|[<-|[<-|[]]]]; discriminate.
    + lia.
  - destruct (delete_cafe_authorized (2 ^ 63)
                (with_args [("api-key", "TopSecretAPIKey")])
                sample_db eq_refl) as [_ Habsent].
    apply Habsent.
    + intros c Hin. simpl in Hin.
      destruct Hin as [<-|[<-|[<-|[]]]]; discriminate.
    + lia.
Defined.

(** ** PATCH /update-price *)

(** C2.  When no row has the id, PATCH /update-price/<id> leaves the
    table unchanged and never answers with the JSON not-found body of its
    [else] branch: the view leaves through the [HTTPException] raised
    inside [get_or_404], with status 404, when the id is a 64-bit integer,
    and through an uncaught [OverflowError] when it is not. *)
Theorem patch_new_price_absent :
  forall (cafe_id : Z) (request : Request) (db : Table),
    (forall c, In c db -> id c <> cafe_id) ->
    snd (patch_new_price cafe_id request db) = db
    /\ fst (patch_new_price cafe_id request db) <>
         Ok (JObj [("error",
                    JObj [("Not Found",
                           JStr "Sorry a cafe with that id was not found in the database.")])],
             404)
    /\ (- 2 ^ 63 <= cafe_id < 2 ^ 63 ->
        patch_new_price cafe_id request db = (HTTPException 404, db)
        /\ status_code (fst (patch_new_price cafe_id request db)) = Some 404)
    /\ (~ (- 2 ^ 63 <= cafe_id < 2 ^ 63) ->
        patch_new_price cafe_id request db = (Uncaught OverflowError, db)).
Proof.
  intros cafe_id request db Habsent.
  rewrite (patch_new_price_absent_cases _ _ _ Habsent).
  split; [reflexivity|]. split; [|split].
  - simpl. destruct (sqlite_integer cafe_id); discriminate.
  - intros Hin. apply sqlite_integer_true_iff in Hin. rewrite Hin.
    split; reflexivity.
  - intros Hout. apply sqlite_integer_false_iff in Hout. now rewrite Hout.
Qed.

Lemma patch_new_price_absent_witness :
  (forall c, In c (@nil Cafe) -> id c <> 1)
  /\ patch_new_price 1 (with_args [("new_price", "2.80")]) []
     = (HTTPException 404, [])
  /\ patch_new_price (2 ^ 63) (with_args [("new_price", "2.80")]) sample_db
     = (Uncaught OverflowError, sample_db).
Proof.
  assert (H : forall c, In c (@nil Cafe) -> id c <> 1) by (intros c []).
  split; [exact H|]. split.
  - destruct (patch_new_price_absent 1 (with_args [("new_price", "2.80")]) [] H)
      as (_ & _ & Hin & _).
    apply Hin. lia.
  - destruct (patch_new_price_absent (2 ^ 63) (with_args [("new_price", "2.80")])
                sample_db) as (_ & _ & _ & Hout).
    + intros c Hc. simpl in Hc.
      destruct Hc as [<-|[<-|[<-|[]]]]; discriminate.
    + apply Hout. lia.
Defined.

(** What PATCH /update-price does on a row that exists, whatever the
    [new_price] parameter holds. *)
Lemma patch_new_price_found (cafe_id : Z) (request : Request) (db : Table) (c : Cafe) :
  In c db -> id c = cafe_id ->
  let p := md_get "new_price" (args request) in
  let out := patch_new_price cafe_id request db in
  fst out =
    Ok (JObj [("response", JObj [("success", JStr "Successfully updated the price.")])],
        200)
  /\ In (set_coffee_price c p) (snd out)
  /\ (forall d, In d (snd out) -> id d = cafe_id -> coffee_price d = p)
  /\ (forall d, id d <> cafe_id -> (In d (snd out) <-> In d db))
  /\ (exists c0, session_get db cafe_id = Some c0
                 /\ session_get (snd out) cafe_id = Some (set_coffee_price c0 p)).
Proof.
  intros Hin Hid p out. subst p out. unfold patch_new_price.
  destruct (session_get_present db cafe_id c Hin Hid) as [c0 Hc0].
  unfold get_or_404. rewrite Hc0. simpl.
  destruct (session_get_Some _ _ _ Hc0) as [Hc0in Hc0id].
  split; [reflexivity|]. split; [|split; [|split]].
  - apply commit_price_In; [assumption | congruence].
  - intros d Hd Hdid. apply (commit_price_hit c0 _ db d Hd). congruence.
  - intros d Hd. apply commit_price_other. congruence.
  - exists c0. split; [reflexivity|].
    rewrite commit_price_get, Hc0. now rewrite Z.eqb_refl.
Qed.

(** C5.  When a row has the id and [new_price] is the string P, PATCH
    /update-price/<id> answers 200 with the success body; in the table
    after the request the row is the same except that its [coffee_price] is
    exactly the string P, a later lookup of the id returns it, and rows of
    other ids are as before.  When no row has the id the table is left
    unchanged. *)
Theorem patch_new_price_sets_price :
  forall (cafe_id : Z) (request : Request) (db : Table) (P : string),
    md_get "new_price" (args request) = Some P ->
    (forall c, In c db -> id c = cafe_id ->
       fst (patch_new_price cafe_id request db) =
         Ok (JObj [("response",
                    JObj [("success", JStr "Successfully updated the price.")])],
             200)
       /\ In {| id := id c; name := name c; map_url := map_url c;
                img_url := img_url c; location := location c; seats := seats c;
                has_toilet := has_toilet c; has_wifi := has_wifi c;
                has_sockets := has_sockets c; can_take_calls := can_take_calls c;
                coffee_price := Some P |}
             (snd (patch_new_price cafe_id request db))
       /\ (forall d, In d (snd (patch_new_price cafe_id request db)) ->
                     id d = cafe_id -> coffee_price d = Some P)
       /\ (forall d, id d <> cafe_id ->
                     (In d (snd (patch_new_price cafe_id request db)) <-> In d db))
       /\ (exists d, session_get (snd (patch_new_price cafe_id request db)) cafe_id
                     = Some d
                     /\ coffee_price d = Some P))
    /\ ((forall c, In c db -> id c <> cafe_id) ->
        snd (patch_new_price cafe_id request db) = db).
Proof.
  intros cafe_id request db P HP. split.
  - intros c Hin Hid.
    destruct (patch_new_price_found cafe_id request db c Hin Hid)
      as (H1 & H2 & H3 & H4 & c0 & _ & H5).
    rewrite HP in H2, H3, H5.
    split; [exact H1|]. split; [exact H2|]. split; [exact H3|].
    split; [exact H4|]. eexists. split; [exact H5 | reflexivity].
  - intros Habsent. now rewrite (patch_new_price_absent_cases _ _ _ Habsent).
Qed.

Lemma patch_new_price_sets_price_witness :
  md_get "new_price" (args (with_args [("new_price", "02.50 GBP")]))
    = Some "02.50 GBP"
  /\ In joes sample_db
  /\ fst (patch_new_price 1 (with_args [("new_price", "02.50 GBP")]) sample_db) =
       Ok (JObj [("response",
                  JObj [("success", JStr "Successfully updated the price.")])],
           200)
  /\ In {| id := 1; name := "Joe's"; map_url := "http://x"; img_url := "http://y";
           location := "Springfield"; seats := "10";
           has_toilet := false; has_wifi := false; has_sockets := true;
           can_take_calls := false; coffee_price := Some "02.50 GBP" |}
        (snd (patch_new_price 1 (with_args [("new_price", "02.50 GBP")]) sample_db)).
Proof.
  assert (Hin : In joes sample_db) by (simpl; auto).
  split; [reflexivity|]. split; [exact Hin|].
  destruct (patch_new_price_sets_price 1 (with_args [("new_price", "02.50 GBP")])
              sample_db "02.50 GBP" eq_refl) as [Hfound _].
  destruct (Hfound joes Hin eq_refl) as (H1 & H2 & _).
  split; [exact H1 | exact H2].
Defined.

(** C10.  When a row has the id and the [new_price] parameter is absent,
    PATCH /update-price/<id> still answers 200 with the success body, and the
    row's [coffee_price] is NULL in the table after the request, whatever it
    was before. *)
Theorem patch_new_price_missing_clears :
  forall (cafe_id : Z) (request : Request) (db : Table) (c : Cafe),
    md_get "new_price" (args request) = None ->
    In c db -> id c = cafe_id ->
    fst (patch_new_price cafe_id request db) =
      Ok (JObj [("response",
                 JObj [("success", JStr "Successfully updated the price.")])],
          200)
    /\ In {| id := id c; name := name c; map_url := map_url c;
             img_url := img_url c; location := location c; seats := seats c;
             has_toilet := has_toilet c; has_wifi := has_wifi c;
             has_sockets := has_sockets c; can_take_calls := can_take_calls c;
             coffee_price := None |}
          (snd (patch_new_price cafe_id request db))
    /\ (forall d, In d (snd (patch_new_price cafe_id request db)) ->
                  id d = cafe_id -> coffee_price d = None)
    /\ (exists d, session_get (snd (patch_new_price cafe_id request db)) cafe_id
                  = Some d
                  /\ coffee_price d = None).
Proof.
  intros cafe_id request db c HP Hin Hid.
  destruct (patch_new_price_found cafe_id request db c Hin Hid)
    as (H1 & H2 & H3 & _ & c0 & _ & H5).
  rewrite HP in H2, H3, H5.
  split; [exact H1|]. split; [exact H2|]. split; [exact H3|].
  eexists. split; [exact H5 | reflexivity].
Qed.

Lemma patch_new_price_missing_clears_witness :
  md_get "new_price" (args (with_args [])) = None
  /\ coffee_price moes = Some "2.50"
  /\ session_get (snd (patch_new_price 2 (with_args []) sample_db)) 2
     = Some {| id := 2; name := "Moe's"; map_url := "http://m"; img_url := "http://n";
               location := "Shelbyville"; seats := "20-30";
               has_toilet := true; has_wifi := true; has_sockets := false;
               can_take_calls := true; coffee_price := None |}
  /\ fst (patch_new_price 2 (with_args []) sample_db) =
       Ok (JObj [("response",
                  JObj [("success", JStr "Successfully updated the price.")])],
           200).
Proof.
  split; [reflexivity|]. split; [reflexivity|]. split; [reflexivity|].
  apply (patch_new_price_missing_clears 2 (with_args []) sample_db moes eq_refl).
  - simpl; auto.
  - reflexivity.
Defined.

(** ** GET /search *)

Lemma location_is_true_iff (q : pystr) (c : Cafe) :
  location_is q c = true <-> Some (location c) = q.
Proof.
  destruct q as [s|]; simpl.
  - rewrite String.eqb_eq. split; congruence.
  - split; discriminate.
Qed.

Lemma filter_nil_iff {A : Type} (keep : A -> bool) (l : list A) :
  filter keep l = [] <-> (forall x, In x l -> keep x = false).
Proof.
  induction l as [|a l IH]; simpl.
  - split; [intros _ x [] | reflexivity].
  - destruct (keep a) eqn:E; split.
    + discriminate.
    + intros H. specialize (H a (or_introl eq_refl)). congruence.
    + intros H x [<-|Hx]; [assumption | now apply IH].
    + intros H. apply IH. intros x Hx. apply H. now right.
Qed.

(** C3.  GET /search answers 404 with the fixed not-found body exactly when
    no stored row has a location equal to the [loc] parameter (a missing
    parameter equals no location); otherwise it answers 200 with the
    serialization of the rows whose location equals the parameter, those
    and no others.  The table is not changed. *)
Theorem get_cafe_at_location_spec :
  forall (request : Request) (db : Table),
    (fst (get_cafe_at_location request db) =
       Ok (JObj [("error",
                  JObj [("Not Found",
                         JStr "Sorry, we don't have a cafe at that location.")])],
           404)
     <-> (forall c, In c db -> Some (location c) <> md_get "loc" (args request)))
    /\ ((exists c, In c db /\ Some (location c) = md_get "loc" (args request)) ->
        exists rows,
          fst (get_cafe_at_location request db) =
            Ok (JObj [("cafes", JArr (map to_dict rows))], 200)
          /\ (forall c, In c rows <->
                        In c db /\ Some (location c) = md_get "loc" (args request)))
    /\ ((forall c, In c db -> Some (location c) <> md_get "loc" (args request))
        \/ (exists c, In c db /\ Some (location c) = md_get "loc" (args request)))
    /\ (md_get "loc" (args request) = None ->
        status_code (fst (get_cafe_at_location request db)) = Some 404)
    /\ snd (get_cafe_at_location request db) = db.
Proof.
  intros request db. unfold get_cafe_at_location, select_all.
  set (q := md_get "loc" (args request)).
  destruct (filter (location_is q) db) as [|r rows] eqn:E.
  - assert (Hnone : forall c, In c db -> Some (location c) <> q).
    { intros c Hc Heq. apply location_is_true_iff in Heq.
      rewrite (proj1 (filter_nil_iff _ _) E c Hc) in Heq. discriminate. }
    simpl. split; [split; [intros _; exact Hnone | reflexivity]|].
    split; [intros (c & Hc & Heq); now elim (Hnone c Hc)|].
    split; [now left|]. split; reflexivity.
  - assert (Hmem : forall c, In c (r :: rows) <-> In c db /\ Some (location c) = q).
    { intros c. rewrite <- E, filter_In, location_is_true_iff. tauto. }
    assert (Hr : In r db /\ Some (location r) = q) by (apply Hmem; now left).
    simpl fst. simpl snd. split; [split|].
    + discriminate.
    + intros Hnone. now elim (Hnone r (proj1 Hr)).
    + split; [intros _; exists (r :: rows); split; [reflexivity | exact Hmem]|].
      split; [right; now exists r|]. split; [|reflexivity].
      intros Hq. destruct Hr as [_ Hr]. congruence.
Qed.

Lemma get_cafe_at_location_spec_witness :
  (exists c, In c sample_db
             /\ Some (location c) = md_get "loc" (args (with_args [("loc", "Springfield")])))
  /\ fst (get_cafe_at_location (with_args [("loc", "Springfield")]) sample_db)
     = Ok (JObj [("cafes", JArr [to_dict joes; to_dict alba])], 200)
  /\ status_code (fst (get_cafe_at_location (with_args [("loc", "springfield")]) sample_db))
     = Some 404
  /\ status_code (fst (get_cafe_at_location (with_args []) sample_db)) = Some 404.
Proof.
  assert (H : exists c, In c sample_db
              /\ Some (location c)
                 = md_get "loc" (args (with_args [("loc", "Springfield")]))).
  { exists joes. split; [simpl; auto | reflexivity]. }
  split; [exact H|].
  destruct (get_cafe_at_location_spec (with_args [("loc", "Springfield")]) sample_db)
    as (_ & Hfound & _).
  destruct (Hfound H) as (rows & Hrows & _).
  split; [reflexivity|]. split; [reflexivity|].
  apply (get_cafe_at_location_spec (with_args []) sample_db). reflexivity.
Defined.

(** ** GET /all *)

(** C6.  On every table, GET /all answers 200 with the serialization of a
    list that holds the stored rows, each as often as it is stored, in
    non-decreasing byte-wise order of their names; on the empty table the
    list is empty.  The table is not changed. *)
Theorem get_all_cafes_sorted :
  forall (request : Request) (db : Table),
    (exists rows,
       get_all_cafes request db =
         (Ok (JObj [("cafes", JArr (map to_dict rows))], 200), db)
       /\ Permutation rows db
       /\ StronglySorted (fun a b => String.leb (name a) (name b) = true) rows)
    /\ get_all_cafes request [] = (Ok (JObj [("cafes", JArr [])], 200), []).
Proof.
  intros request db. split; [|reflexivity].
  exists (order_by_name db). split; [reflexivity|].
  split; [apply order_by_name_perm | apply order_by_name_sorted].
Qed.

Example get_all_cafes_sample :
  fst (get_all_cafes (with_args []) sample_db)
  = Ok (JObj [("cafes", JArr [to_dict alba; to_dict joes; to_dict moes])], 200).
Proof. reflexivity. Qed.

(** Upper case sorts before lower case. *)
Example order_by_name_case :
  map name (order_by_name
              [set_coffee_price joes None;
               {| id := 4; name := "alba"; map_url := ""; img_url := "";
                  location := ""; seats := ""; has_toilet := false;
                  has_wifi := false; has_sockets := false;
                  can_take_calls := false; coffee_price := None |};
               {| id := 5; name := "Zed"; map_url := ""; img_url := "";
                  location := ""; seats := ""; has_toilet := false;
                  has_wifi := false; has_sockets := false;
                  can_take_calls := false; coffee_price := None |}])
  = ["Joe's"; "Zed"; "alba"].
Proof. reflexivity. Qed.

(** ** GET /random *)

Lemma random_choice_In {A : Type} (entropy : nat) (seq : list A) :
  seq <> [] -> exists x, In x seq /\ random_choice entropy seq = Ok x.
Proof.
  intros Hne. destruct seq as [|a seq]; [now elim Hne|].
  unfold random_choice, randbelow.
  destruct (nth_error (a :: seq) (Nat.modulo entropy (List.length (a :: seq))))
    as [x|] eqn:E.
  - exists x. split; [now apply nth_error_In in E | reflexivity].
  - apply nth_error_None in E.
    assert (Nat.modulo entropy (List.length (a :: seq)) < List.length (a :: seq))%nat
      by (apply Nat.mod_upper_bound; discriminate).
    lia.
Qed.

(** C9.  On a table that is not empty, GET /random answers 200 with the
    serialization of one of the stored rows under the key [cafe]; on the
    empty table [random.choice] raises [IndexError] and the view returns no
    response.  The table is not changed. *)
Theorem get_random_cafe_spec :
  forall (entropy : nat) (request : Request) (db : Table),
    (db <> [] ->
     exists c, In c db
               /\ get_random_cafe entropy request db =
                    (Ok (JObj [("cafe", to_dict c)], 200), db))
    /\ get_random_cafe entropy request [] = (Uncaught IndexError, []).
Proof.
  intros entropy request db. split; [|reflexivity].
  intros Hne. destruct (random_choice_In entropy db Hne) as (c & Hin & Hc).
  exists c. split; [assumption|].
  unfold get_random_cafe, select_all. now rewrite Hc.
Qed.

Lemma get_random_cafe_spec_witness :
  sample_db <> []
  /\ exists c, In c sample_db
               /\ get_random_cafe 7 (with_args []) sample_db =
                    (Ok (JObj [("cafe", to_dict c)], 200), sample_db).
Proof.
  assert (H : sample_db <> []) by discriminate.
  split; [exact H|].
  exact (proj1 (get_random_cafe_spec 7 (with_args []) sample_db) H).
Defined.

(** Every stored row is the answer for some draw. *)
Lemma get_random_cafe_any (request : Request) (db : Table) (c : Cafe) :
  In c db ->
  exists entropy,
    get_random_cafe entropy request db = (Ok (JObj [("cafe", to_dict c)], 200), db).
Proof.
  intros Hin. destruct (In_nth_error _ _ Hin) as [n Hn]. exists n.
  assert (Hlt : (n < List.length db)%nat).
  { apply nth_error_Some. congruence. }
  unfold get_random_cafe, select_all, random_choice, randbelow.
  destruct db as [|a db]; [contradiction|].
  rewrite Nat.mod_small by exact Hlt. now rewrite Hn.
Qed.

(** ** POST /add *)

(** When the INSERT goes through: the five required fields are in the form,
    the name is not stored yet, and the table gains one row at its end. *)
Lemma post_new_cafe_ok (request : Request) (db : Table) (r : response) :
  fst (post_new_cafe request db) = Ok r ->
  exists n m i l s,
    md_get "name" (form request) = Some n
    /\ md_get "map_url" (form request) = Some m
    /\ md_get "img_url" (form request) = Some i
    /\ md_get "loc" (form request) = Some l
    /\ md_get "seats" (form request) = Some s
    /\ name_taken db n = false
    /\ post_new_cafe request db =
         (Ok (JObj [("response",
                     JObj [("success", JStr "Successfully added the new cafe.")])],
              200),
          app db
            [ {| id := next_id db; name := n; map_url := m; img_url := i;
                 location := l; seats := s;
                 has_toilet := py_bool (md_get "toilet" (form request));
                 has_wifi := py_bool (md_get "wifi" (form request));
                 has_sockets := py_bool (md_get "sockets" (form request));
                 can_take_calls := py_bool (md_get "calls" (form request));
                 coffee_price := md_get "coffee_price" (form request) |} ]).
Proof.
  unfold post_new_cafe, commit_add, build_cafe. simpl.
  destruct (md_get "name" (form request)) as [n|]; [|discriminate].
  destruct (md_get "map_url" (form request)) as [m|]; [|discriminate].
  destruct (md_get "img_url" (form request)) as [i|]; [|discriminate].
  destruct (md_get "loc" (form request)) as [l|]; [|discriminate].
  destruct (md_get "seats" (form request)) as [s|]; [|discriminate].
  destruct (name_taken db n) eqn:T; [discriminate|].
  intros _. exists n, m, i, l, s. do 5 (split; [reflexivity|]).
  split; [exact T | reflexivity].
Qed.

Lemma post_new_cafe_succeeds (request : Request) (db : Table) (n m i l s : string) :
  md_get "name" (form request) = Some n ->
  md_get "map_url" (form request) = Some m ->
  md_get "img_url" (form request) = Some i ->
  md_get "loc" (form request) = Some l ->
  md_get "seats" (form request) = Some s ->
  ~ In n (map name db) ->
  exists r, fst (post_new_cafe request db) = Ok r.
Proof.
  intros Hn Hm Hi Hl Hs Hfree. apply name_taken_false in Hfree.
  unfold post_new_cafe, commit_add, build_cafe. simpl.
  rewrite Hn, Hm, Hi, Hl, Hs, Hfree. eexists. reflexivity.
Qed.

(** A form that misses a required field, or repeats a stored name, makes
    the commit raise; nothing is stored. *)
Lemma post_new_cafe_fails (request : Request) (db : Table) :
  (md_get "name" (form request) = None
   \/ md_get "map_url" (form request) = None
   \/ md_get "img_url" (form request) = None
   \/ md_get "loc" (form request) = None
   \/ md_get "seats" (form request) = None
   \/ (exists n, md_get "name" (form request) = Some n /\ In n (map name db))) ->
  post_new_cafe request db = (Uncaught IntegrityError, db).
Proof.
  unfold post_new_cafe, commit_add, build_cafe. simpl.
  intros H.
  destruct (md_get "name" (form request)) as [n|] eqn:En;
  destruct (md_get "map_url" (form request)) as [m|];
  destruct (md_get "img_url" (form request)) as [i|];
  destruct (md_get "loc" (form request)) as [l|];
  destruct (md_get "seats" (form request)) as [s|]; try reflexivity.
  destruct (name_taken db n) eqn:T; [reflexivity|].
  apply name_taken_false in T.
  destruct H as [H|[H|[H|[H|[H|(n' & H & Hin)]]]]]; try discriminate.
  inversion H; subst. contradiction.
Qed.

(** C7.  When POST /add succeeds, the answer is the fixed success body with
    status 200 and the table gains one row; each boolean column of that row
    is true exactly when the form holds a non-empty value under the
    matching key ([sockets], [toilet], [wifi], [calls]), whatever the value
    spells, and false when the key is absent or its value is empty. *)
Theorem post_new_cafe_booleans :
  forall (request : Request) (db : Table) (r : response),
    fst (post_new_cafe request db) = Ok r ->
    r = (JObj [("response",
                JObj [("success", JStr "Successfully added the new cafe.")])],
         200)
    /\ exists c,
         snd (post_new_cafe request db) = app db [c]
         /\ (has_sockets c = true <->
             exists v, md_get "sockets" (form request) = Some v /\ v <> "")
         /\ (has_toilet c = true <->
             exists v, md_get "toilet" (form request) = Some v /\ v <> "")
         /\ (has_wifi c = true <->
             exists v, md_get "wifi" (form request) = Some v /\ v <> "")
         /\ (can_take_calls c = true <->
             exists v, md_get "calls" (form request) = Some v /\ v <> "")
         /\ (has_sockets c = false <->
             md_get "sockets" (form request) = None
             \/ md_get "sockets" (form request) = Some "")
         /\ (has_toilet c = false <->
             md_get "toilet" (form request) = None
             \/ md_get "toilet" (form request) = Some "")
         /\ (has_wifi c = false <->
             md_get "wifi" (form request) = None
             \/ md_get "wifi" (form request) = Some "")
         /\ (can_take_calls c = false <->
             md_get "calls" (form request) = None
             \/ md_get "calls" (form request) = Some "").
Proof.
  intros request db r Hok.
  destruct (post_new_cafe_ok request db r Hok)
    as (n & m & i & l & s & _ & _ & _ & _ & _ & _ & E).
  rewrite E in Hok. simpl in Hok. split; [congruence|].
  rewrite E. simpl snd. eexists. split; [reflexivity|]. simpl.
  repeat split; try apply py_bool_true_iff; try apply py_bool_false_iff.
Qed.

Lemma post_new_cafe_booleans_witness :
  fst (post_new_cafe odd_form sample_db) =
    Ok (JObj [("response",
               JObj [("success", JStr "Successfully added the new cafe.")])],
        200)
  /\ exists c,
       snd (post_new_cafe odd_form sample_db) = app sample_db [c]
       /\ has_sockets c = true /\ has_toilet c = true
       /\ has_wifi c = false /\ can_take_calls c = false.
Proof.
  split; [reflexivity|].
  destruct (post_new_cafe_booleans odd_form sample_db _ eq_refl)
    as (_ & c & Hc & Hs & Ht & _ & _ & _ & _ & Hw & Hk).
  exists c. split; [exact Hc|].
  split; [apply Hs; exists "false"; split; [reflexivity | discriminate]|].
  split; [apply Ht; exists "0"; split; [reflexivity | discriminate]|].
  split; [apply Hw; right; reflexivity | apply Hk; left; reflexivity].
Defined.

(** ** Adding a row and reading it back *)

Lemma get_all_cafes_lists (request : Request) (db : Table) (c : Cafe) :
  In c db ->
  exists rows,
    get_all_cafes request db = (Ok (JObj [("cafes", JArr rows)], 200), db)
    /\ In (to_dict c) rows.
Proof.
  intros Hin. exists (map to_dict (order_by_name db)). split; [reflexivity|].
  apply in_map. apply (Permutation_in c (Permutation_sym (order_by_name_perm db))).
  exact Hin.
Qed.

Lemma get_cafe_at_location_lists (request : Request) (db : Table) (c : Cafe) :
  In c db ->
  md_get "loc" (args request) = Some (location c) ->
  exists rows,
    get_cafe_at_location request db = (Ok (JObj [("cafes", JArr rows)], 200), db)
    /\ In (to_dict c) rows.
Proof.
  intros Hin Hq. unfold get_cafe_at_location, select_all. rewrite Hq.
  assert (Hc : In c (filter (location_is (Some (location c))) db)).
  { apply filter_In. split; [assumption|]. now apply location_is_true_iff. }
  destruct (filter (location_is (Some (location c))) db) as [|r rows] eqn:E;
    [contradiction|].
  eexists. split; [reflexivity|]. now apply in_map.
Qed.

(** C8.  After a POST /add that succeeded, GET /all, and GET /search for
    the location that was posted, each answer 200 with a list that holds an
    object whose fields are the posted values ([location] from [loc], the
    booleans from the truth of [sockets], [toilet], [wifi], [calls],
    [coffee_price] null when it was not posted) under an id that no earlier
    row has. *)
Theorem add_then_fetch_round_trip :
  forall (request : Request) (db : Table) (r : response),
    fst (post_new_cafe request db) = Ok r ->
    exists ident n m i l s,
      md_get "name" (form request) = Some n
      /\ md_get "map_url" (form request) = Some m
      /\ md_get "img_url" (form request) = Some i
      /\ md_get "loc" (form request) = Some l
      /\ md_get "seats" (form request) = Some s
      /\ (forall c, In c db -> id c <> ident)
      /\ (forall request2,
            exists rows,
              get_all_cafes request2 (snd (post_new_cafe request db)) =
                (Ok (JObj [("cafes", JArr rows)], 200),
                 snd (post_new_cafe request db))
              /\ In (JObj [ ("id", JInt ident);
                            ("name", JStr n);
                            ("map_url", JStr m);
                            ("img_url", JStr i);
                            ("location", JStr l);
                            ("seats", JStr s);
                            ("has_toilet",
                             JBool (py_bool (md_get "toilet" (form request))));
                            ("has_wifi",
                             JBool (py_bool (md_get "wifi" (form request))));
                            ("has_sockets",
                             JBool (py_bool (md_get "sockets" (form request))));
                            ("can_take_calls",
                             JBool (py_bool (md_get "calls" (form request))));
                            ("coffee_price",
                             match md_get "coffee_price" (form request) with
                             | Some p => JStr p
                             | None => JNull
                             end) ])
                    rows)
      /\ (forall request3,
            md_get "loc" (args request3) = Some l ->
            exists rows,
              get_cafe_at_location request3 (snd (post_new_cafe request db)) =
                (Ok (JObj [("cafes", JArr rows)], 200),
                 snd (post_new_cafe request db))
              /\ In (JObj [ ("id", JInt ident);
                            ("name", JStr n);
                            ("map_url", JStr m);
                            ("img_url", JStr i);
                            ("location", JStr l);
                            ("seats", JStr s);
                            ("has_toilet",
                             JBool (py_bool (md_get "toilet" (form request))));
                            ("has_wifi",
                             JBool (py_bool (md_get "wifi" (form request))));
                            ("has_sockets",
                             JBool (py_bool (md_get "sockets" (form request))));
                            ("can_take_calls",
                             JBool (py_bool (md_get "calls" (form request))));
                            ("coffee_price",
                             match md_get "coffee_price" (form request) with
                             | Some p => JStr p
                             | None => JNull
                             end) ])
                    rows).
Proof.
  intros request db r Hok.
  destruct (post_new_cafe_ok request db r Hok)
    as (n & m & i & l & s & Hn & Hm & Hi & Hl & Hs & _ & E).
  exists (next_id db), n, m, i, l, s.
  do 5 (split; [assumption|]).
  split; [intros c Hc; apply next_id_fresh in Hc; lia|].
  rewrite E. simpl snd.
  match goal with
  | |- context [app db [?row]] => set (c := row)
  end.
  assert (Hin : In c (app db [c])) by (apply in_or_app; right; now left).
  split.
  - intros request2. exact (get_all_cafes_lists request2 _ c Hin).
  - intros request3 Hq. exact (get_cafe_at_location_lists request3 _ c Hin Hq).
Qed.

Lemma add_then_fetch_round_trip_witness :
  fst (post_new_cafe joes_form []) =
    Ok (JObj [("response",
               JObj [("success", JStr "Successfully added the new cafe.")])],
        200)
  /\ get_all_cafes (with_args []) (snd (post_new_cafe joes_form [])) =
       (Ok (JObj [("cafes",
                   JArr [JObj [ ("id", JInt 1);
                                ("name", JStr "Joe's");
                                ("map_url", JStr "http://x");
                                ("img_url", JStr "http://y");
                                ("location", JStr "Springfield");
                                ("seats", JStr "10");
                                ("has_toilet", JBool false);
                                ("has_wifi", JBool false);
                                ("has_sockets", JBool true);
                                ("can_take_calls", JBool false);
                                ("coffee_price", JNull) ]])],
            200),
        snd (post_new_cafe joes_form []))
  /\ exists ident n m i l s,
       md_get "name" (form joes_form) = Some n
       /\ md_get "map_url" (form joes_form) = Some m
       /\ md_get "img_url" (form joes_form) = Some i
       /\ md_get "loc" (form joes_form) = Some l
       /\ md_get "seats" (form joes_form) = Some s
       /\ (forall c, In c (@nil Cafe) -> id c <> ident).
Proof.
  split; [reflexivity|]. split; [reflexivity|].
  destruct (add_then_fetch_round_trip joes_form [] _ eq_refl)
    as (ident & n & m & i & l & s & Hn & Hm & Hi & Hl & Hs & Hfresh & _).
  exists ident, n, m, i, l, s. repeat (split; [assumption|]). exact Hfresh.
Defined.

(** * Further properties of the views *)

(** ** POST /add: when it goes through *)

Lemma post_new_cafe_cases (request : Request) (db : Table) :
  (exists r, fst (post_new_cafe request db) = Ok r)
  \/ post_new_cafe request db = (Uncaught IntegrityError, db).
Proof.
  unfold post_new_cafe, commit_add.
  destruct (new_name (build_cafe request)); [|now right].
  destruct (new_map_url (build_cafe request)); [|now right].
  destruct (new_img_url (build_cafe request)); [|now right].
  destruct (new_location (build_cafe request)); [|now right].
  destruct (new_seats (build_cafe request)); [|now right].
  destruct (name_taken db s); [now right|].
  left. eexists. reflexivity.
Qed.

Lemma post_new_cafe_ok_status (request : Request) (db : Table) (r : response) :
  fst (post_new_cafe request db) = Ok r ->
  status_code (fst (post_new_cafe request db)) = Some 200.
Proof.
  intros Hr. destruct (post_new_cafe_ok request db r Hr)
    as (n & m & i & l & s & _ & _ & _ & _ & _ & _ & E).
  now rewrite E.
Qed.

(** X1.  POST /add answers 200 exactly when the form holds [name],
    [map_url], [img_url], [loc] and [seats] and no stored row has the name;
    in every other case the commit raises [IntegrityError] and the table is
    as it was. *)
Theorem post_new_cafe_outcome :
  forall (request : Request) (db : Table),
    (status_code (fst (post_new_cafe request db)) = Some 200
     <-> exists n m i l s,
           md_get "name" (form request) = Some n
           /\ md_get "map_url" (form request) = Some m
           /\ md_get "img_url" (form request) = Some i
           /\ md_get "loc" (form request) = Some l
           /\ md_get "seats" (form request) = Some s
           /\ ~ In n (map name db))
    /\ (status_code (fst (post_new_cafe request db)) = Some 200
        \/ post_new_cafe request db = (Uncaught IntegrityError, db)).
Proof.
  intros request db.
  pose proof (post_new_cafe_ok_status request db) as Hok.
  split; [split|].
  - intros H. destruct (post_new_cafe_cases request db) as [[r Hr]|E].
    + destruct (post_new_cafe_ok request db r Hr)
        as (n & m & i & l & s & Hn & Hm & Hi & Hl & Hs & Hfree & _).
      exists n, m, i, l, s. apply name_taken_false in Hfree. tauto.
    + rewrite E in H. discriminate.
  - intros (n & m & i & l & s & Hn & Hm & Hi & Hl & Hs & Hfree).
    destruct (post_new_cafe_succeeds request db n m i l s Hn Hm Hi Hl Hs Hfree)
      as [r Hr].
    exact (Hok r Hr).
  - destruct (post_new_cafe_cases request db) as [[r Hr]|E];
      [left; exact (Hok r Hr) | right; exact E].
Qed.

Lemma post_new_cafe_outcome_witness :
  status_code (fst (post_new_cafe joes_form [])) = Some 200
  /\ post_new_cafe joes_form [joes] = (Uncaught IntegrityError, [joes])
  /\ post_new_cafe (with_args []) sample_db = (Uncaught IntegrityError, sample_db).
Proof.
  split; [|split].
  - apply (post_new_cafe_outcome joes_form []).
    exists "Joe's", "http://x", "http://y", "Springfield", "10".
    repeat (split; [reflexivity|]). intros [].
  - destruct (post_new_cafe_outcome joes_form [joes]) as [_ [H|H]];
      [discriminate H | exact H].
  - reflexivity.
Defined.

(** X2.  Posting the same form again after it was accepted raises
    [IntegrityError], as the name is now stored, and adds nothing. *)
Theorem post_new_cafe_twice :
  forall (request : Request) (db : Table) (r : response),
    fst (post_new_cafe request db) = Ok r ->
    post_new_cafe request (snd (post_new_cafe request db)) =
      (Uncaught IntegrityError, snd (post_new_cafe request db)).
Proof.
  intros request db r Hok.
  destruct (post_new_cafe_ok request db r Hok)
    as (n & m & i & l & s & Hn & _ & _ & _ & _ & _ & E).
  rewrite E. simpl snd. apply post_new_cafe_fails.
  do 5 right. exists n. split; [exact Hn|].
  rewrite map_app. apply in_or_app. right. now left.
Qed.

Lemma post_new_cafe_twice_witness :
  fst (post_new_cafe joes_form []) =
    Ok (JObj [("response",
               JObj [("success", JStr "Successfully added the new cafe.")])],
        200)
  /\ post_new_cafe joes_form (snd (post_new_cafe joes_form [])) =
       (Uncaught IntegrityError, snd (post_new_cafe joes_form [])).
Proof.
  split; [reflexivity|].
  exact (post_new_cafe_twice joes_form [] _ eq_refl).
Defined.

(** ** All routes together *)

Lemma dispatch_wf (call : Call) : keeps_wf (dispatch call).
Proof.
  destruct call; simpl;
    [ apply get_random_cafe_wf | apply get_all_cafes_wf
    | apply get_cafe_at_location_wf | apply post_new_cafe_wf
    | apply patch_new_price_wf | apply delete_cafe_wf ].
Qed.

Lemma serve_wf (calls : list (Call * Request)) (db : Table) :
  wf db -> wf (serve calls db).
Proof.
  revert db. induction calls as [|[call request] calls IH]; intros db H; simpl.
  - exact H.
  - apply IH. now apply dispatch_wf.
Qed.

(** X3.  Whatever requests were served since the table was empty, no two
    stored rows share an id and no two share a name. *)
Theorem serve_unique_keys :
  forall (calls : list (Call * Request)),
    NoDup (map id (serve calls [])) /\ NoDup (map name (serve calls [])).
Proof.
  intros calls. apply serve_wf. split; constructor.
Qed.

(** X4.  A request that is not answered with status 200 (a 403, a 404, or
    an exception) leaves the table exactly as it was. *)
Theorem dispatch_failure_keeps_table :
  forall (call : Call) (request : Request) (db : Table),
    status_code (fst (dispatch call request db)) <> Some 200 ->
    snd (dispatch call request db) = db.
Proof.
  intros [entropy| | | |cafe_id|cafe_id] request db H; simpl in *.
  - reflexivity.
  - reflexivity.
  - unfold get_cafe_at_location. now destruct (filter _ _).
  - destruct (post_new_cafe_cases request db) as [[r Hr]|E];
      [now elim H; apply (post_new_cafe_ok_status request db r) | now rewrite E].
  - unfold patch_new_price in *.
    destruct (get_or_404 db (Z.of_N cafe_id)); simpl in *;
      [now elim H | reflexivity | reflexivity].
  - unfold delete_cafe in *. destruct (py_eq _ _); [|reflexivity].
    destruct (get_or_404 db (Z.of_N cafe_id)); simpl in *;
      [now elim H | reflexivity | reflexivity].
Qed.

Lemma dispatch_failure_keeps_table_witness :
  status_code (fst (dispatch (CallReportClosed 1) (with_args []) sample_db))
    <> Some 200
  /\ snd (dispatch (CallReportClosed 1) (with_args []) sample_db) = sample_db.
Proof.
  assert (H : status_code (fst (dispatch (CallReportClosed 1) (with_args [])
                                  sample_db)) <> Some 200)
    by (simpl; discriminate).
  split; [exact H|].
  exact (dispatch_failure_keeps_table (CallReportClosed 1) (with_args [])
           sample_db H).
Defined.

Lemma same_except_price_refl (c : Cafe) : same_except_price c c.
Proof. unfold same_except_price. repeat split. Qed.

Lemma same_except_price_set (c : Cafe) (p : pystr) :
  same_except_price c (set_coffee_price c p).
Proof. unfold same_except_price. repeat split. Qed.

(** X5.  Unless the request is a DELETE /report-closed that carries the
    secret token, every stored row is still stored after the request, with
    every column but [coffee_price] as before. *)
Theorem dispatch_keeps_rows :
  forall (call : Call) (request : Request) (db : Table) (c : Cafe),
    (forall cafe_id, call = CallReportClosed cafe_id ->
                     md_get "api-key" (args request) <> Some "TopSecretAPIKey") ->
    In c db ->
    exists d, In d (snd (dispatch call request db)) /\ same_except_price c d.
Proof.
  intros [entropy| | | |cafe_id|cafe_id] request db c Hkey Hin; simpl.
  - exists c. split; [assumption | apply same_except_price_refl].
  - exists c. split; [assumption | apply same_except_price_refl].
  - exists c. split; [|apply same_except_price_refl].
    unfold get_cafe_at_location. now destruct (filter _ _).
  - exists c. split; [|apply same_except_price_refl].
    destruct (post_new_cafe_cases request db) as [[r Hr]|E].
    + destruct (post_new_cafe_ok request db r Hr)
        as (n & m & i & l & s & _ & _ & _ & _ & _ & _ & E).
      rewrite E. simpl. apply in_or_app. now left.
    + now rewrite E.
  - unfold patch_new_price.
    destruct (get_or_404 db (Z.of_N cafe_id)) as [cafe| |]; simpl;
      try (exists c; split; [assumption | apply same_except_price_refl]).
    exists (if Z.eqb (id c) (id cafe)
            then set_coffee_price c (md_get "new_price" (args request)) else c).
    split.
    + unfold commit_price.
      apply (in_map (fun c0 => if Z.eqb (id c0) (id cafe)
                               then set_coffee_price c0 _ else c0)).
      exact Hin.
    + destruct (Z.eqb (id c) (id cafe));
        [apply same_except_price_set | apply same_except_price_refl].
  - specialize (Hkey cafe_id eq_refl). apply py_eq_false_iff in Hkey.
    unfold delete_cafe. rewrite Hkey. simpl.
    exists c. split; [assumption | apply same_except_price_refl].
Qed.

Lemma dispatch_keeps_rows_witness :
  In joes sample_db
  /\ exists d, In d (snd (dispatch (CallReportClosed 1)
                            (with_args [("api-key", "guess")]) sample_db))
               /\ same_except_price joes d.
Proof.
  assert (Hin : In joes sample_db) by (simpl; auto).
  split; [exact Hin|].
  apply (dispatch_keeps_rows (CallReportClosed 1)
           (with_args [("api-key", "guess")]) sample_db joes); [|exact Hin].
  intros cafe_id _. simpl. discriminate.
Defined.

(** ** PATCH /update-price, beyond the row it names *)

Lemma Forall2_diag {A : Type} (R : A -> A -> Prop) (l : list A) :
  (forall x, R x x) -> Forall2 R l l.
Proof.
  intros H. induction l as [|a l IH]; [constructor | now constructor].
Qed.

(** X6.  PATCH /update-price/<id> never adds, removes or reorders rows:
    row by row, the table after the request agrees with the table before
    on every column but [coffee_price], and a row of another id is the
    same row. *)
Theorem patch_new_price_only_price :
  forall (cafe_id : Z) (request : Request) (db : Table),
    Forall2 (fun c d => same_except_price c d /\ (id c <> cafe_id -> d = c))
            db (snd (patch_new_price cafe_id request db)).
Proof.
  intros cafe_id request db. unfold patch_new_price.
  destruct (get_or_404 db cafe_id) as [cafe| |] eqn:E; simpl.
  - assert (Hid : id cafe = cafe_id).
    { unfold get_or_404 in E. destruct (session_get db cafe_id) as [c0|] eqn:G;
        [|destruct (sqlite_integer cafe_id); discriminate].
      inversion E; subst. now apply session_get_Some in G. }
    rewrite <- Hid. unfold commit_price. clear E Hid.
    induction db as [|c db IH]; simpl; [constructor|].
    constructor; [|exact IH].
    destruct (Z.eqb_spec (id c) (id cafe)) as [Heq|Hne].
    + split; [apply same_except_price_set | contradiction].
    + split; [apply same_except_price_refl | reflexivity].
  - apply Forall2_diag. intros c.
    split; [apply same_except_price_refl | reflexivity].
  - apply Forall2_diag. intros c.
    split; [apply same_except_price_refl | reflexivity].
Qed.

Lemma commit_price_again (c0 : Cafe) (p1 p2 : pystr) (db : Table) :
  commit_price (set_coffee_price c0 p1) p2 (commit_price c0 p1 db)
  = commit_price c0 p2 db.
Proof.
  unfold commit_price. rewrite map_map. apply map_ext. intros c. simpl.
  destruct (Z.eqb (id c) (id c0)) eqn:E; simpl; rewrite E; reflexivity.
Qed.

(** X7.  Two PATCH /update-price requests for the same id, one after the
    other, answer and leave the table as the second one alone would: the
    last price wins, and repeating a request changes nothing more. *)
Theorem patch_new_price_last_wins :
  forall (cafe_id : Z) (request1 request2 : Request) (db : Table),
    patch_new_price cafe_id request2 (snd (patch_new_price cafe_id request1 db))
    = patch_new_price cafe_id request2 db.
Proof.
  intros cafe_id request1 request2 db. unfold patch_new_price, get_or_404.
  destruct (session_get db cafe_id) as [c0|] eqn:G; simpl.
  - rewrite commit_price_get, G, Z.eqb_refl. simpl.
    now rewrite commit_price_again.
  - destruct (sqlite_integer cafe_id); simpl; now rewrite G.
Qed.

(** ** DELETE /report-closed, repeated and undone *)

(** X8.  With the secret token, a second DELETE /report-closed/<id> for
    the same id changes nothing, as after the first request no row has the
    id: it leaves through the 404 of [get_or_404] when the id is a 64-bit
    integer, and through an uncaught [OverflowError] when it is not. *)
Theorem delete_cafe_twice :
  forall (cafe_id : Z) (request : Request) (db : Table),
    md_get "api-key" (args request) = Some "TopSecretAPIKey" ->
    snd (delete_cafe cafe_id request (snd (delete_cafe cafe_id request db)))
    = snd (delete_cafe cafe_id request db)
    /\ (- 2 ^ 63 <= cafe_id < 2 ^ 63 ->
        delete_cafe cafe_id request (snd (delete_cafe cafe_id request db))
        = (HTTPException 404, snd (delete_cafe cafe_id request db)))
    /\ (~ (- 2 ^ 63 <= cafe_id < 2 ^ 63) ->
        delete_cafe cafe_id request (snd (delete_cafe cafe_id request db))
        = (Uncaught OverflowError, snd (delete_cafe cafe_id request db))).
Proof.
  intros cafe_id request db Hkey.
  assert (Hgone : forall c, In c (snd (delete_cafe cafe_id request db)) ->
                            id c <> cafe_id).
  { apply session_get_None.
    pose proof Hkey as Hkey'. apply py_eq_true_iff in Hkey'.
    unfold delete_cafe. rewrite Hkey'. unfold get_or_404.
    destruct (session_get db cafe_id) as [c0|] eqn:G; simpl.
    - apply session_get_Some in G. destruct G as [_ <-]. apply commit_delete_get.
    - now destruct (sqlite_integer cafe_id). }
  rewrite (delete_cafe_absent_cases _ _ _ Hkey Hgone).
  split; [reflexivity|]. split.
  - intros Hin. apply sqlite_integer_true_iff in Hin. now rewrite Hin.
  - intros Hout. apply sqlite_integer_false_iff in Hout. now rewrite Hout.
Qed.

Lemma delete_cafe_twice_witness :
  md_get "api-key" (args secret_request) = Some "TopSecretAPIKey"
  /\ snd (delete_cafe 2 secret_request sample_db) = [joes; alba]
  /\ delete_cafe 2 secret_request (snd (delete_cafe 2 secret_request sample_db))
     = (HTTPException 404, snd (delete_cafe 2 secret_request sample_db))
  /\ delete_cafe (2 ^ 63) secret_request
       (snd (delete_cafe (2 ^ 63) secret_request sample_db))
     = (Uncaught OverflowError,
        snd (delete_cafe (2 ^ 63) secret_request sample_db)).
Proof.
  split; [reflexivity|]. split; [reflexivity|]. split.
  - apply (delete_cafe_twice 2 secret_request sample_db eq_refl). lia.
  - apply (delete_cafe_twice (2 ^ 63) secret_request sample_db eq_refl). lia.
Defined.

Lemma filter_all_true {A : Type} (keep : A -> bool) (l : list A) :
  (forall x, In x l -> keep x = true) -> filter keep l = l.
Proof.
  induction l as [|a l IH]; simpl; intros H; [reflexivity|].
  rewrite (H a (or_introl eq_refl)). f_equal. apply IH.
  intros x Hx. apply H. now right.
Qed.

Lemma session_get_snoc (db : Table) (c : Cafe) :
  (forall d, In d db -> id d <> id c) ->
  session_get (app db [c]) (id c) = Some c.
Proof.
  intros Hfresh. unfold session_get.
  induction db as [|d db IH]; simpl.
  - now rewrite Z.eqb_refl.
  - destruct (Z.eqb_spec (id d) (id c)) as [E|_].
    + now elim (Hfresh d (or_introl eq_refl)).
    + apply IH. intros e He. apply Hfresh. now right.
Qed.

(** X9.  A row that POST /add has just stored is removed again by DELETE
    /report-closed on its id with the secret token, and the table is then
    the table from before the POST. *)
Theorem add_then_delete_restores :
  forall (request closing : Request) (db : Table) (r : response),
    fst (post_new_cafe request db) = Ok r ->
    md_get "api-key" (args closing) = Some "TopSecretAPIKey" ->
    exists c,
      snd (post_new_cafe request db) = app db [c]
      /\ delete_cafe (id c) closing (snd (post_new_cafe request db)) =
           (Ok (JObj [("response",
                       JObj [("success",
                              JStr "Successfully deleted the cafe from the database.")])],
                200),
            db).
Proof.
  intros request closing db r Hok Hkey. apply py_eq_true_iff in Hkey.
  destruct (post_new_cafe_ok request db r Hok)
    as (n & m & i & l & s & _ & _ & _ & _ & _ & _ & E).
  rewrite E. simpl snd.
  match goal with
  | |- context [app db [?row]] => set (c := row)
  end.
  exists c. split; [reflexivity|].
  assert (Hfresh : forall d, In d db -> id d <> id c).
  { intros d Hd. apply next_id_fresh in Hd. simpl. lia. }
  unfold delete_cafe. rewrite Hkey. unfold get_or_404.
  rewrite (session_get_snoc db c Hfresh). simpl. f_equal.
  unfold commit_delete. rewrite filter_app. simpl.
  rewrite Z.eqb_refl. simpl. rewrite app_nil_r.
  apply filter_all_true. intros d Hd.
  apply negb_true_iff, Z.eqb_neq. now apply Hfresh.
Qed.

Lemma add_then_delete_restores_witness :
  fst (post_new_cafe odd_form sample_db) =
    Ok (JObj [("response",
               JObj [("success", JStr "Successfully added the new cafe.")])],
        200)
  /\ md_get "api-key" (args secret_request) = Some "TopSecretAPIKey"
  /\ exists c,
       snd (post_new_cafe odd_form sample_db) = app sample_db [c]
       /\ snd (delete_cafe (id c) secret_request
                 (snd (post_new_cafe odd_form sample_db))) = sample_db.
Proof.
  split; [reflexivity|]. split; [reflexivity|].
  destruct (add_then_delete_restores odd_form secret_request sample_db _
              eq_refl eq_refl) as (c & Hc & Hd).
  exists c. split; [exact Hc | now rewrite Hd].
Defined.

(** ** GET /all and the other requests *)

Lemma NoDup_map_eq {A B : Type} (f : A -> B) (l : list A) (a b : A) :
  NoDup (map f l) -> In a l -> In b l -> f a = f b -> a = b.
Proof.
  induction l as [|x l IH]; simpl; intros Hnd Ha Hb Hf; [contradiction|].
  inversion Hnd as [|y ys Hnotin Hnd']; subst.
  destruct Ha as [->|Ha], Hb as [->|Hb].
  - reflexivity.
  - elim Hnotin. rewrite Hf. now apply in_map.
  - elim Hnotin. rewrite <- Hf. now apply in_map.
  - now apply IH.
Qed.

Lemma sorted_by_name_unique (l1 l2 : list Cafe) :
  StronglySorted name_le l1 -> StronglySorted name_le l2 ->
  Permutation l1 l2 -> NoDup (map name l1) -> l1 = l2.
Proof.
  revert l2. induction l1 as [|a l1 IH]; intros l2 S1 S2 P ND.
  - now apply Permutation_nil in P.
  - destruct l2 as [|b l2];
      [apply Permutation_sym, Permutation_nil in P; discriminate|].
    apply StronglySorted_inv in S1. destruct S1 as [S1 Ha].
    apply StronglySorted_inv in S2. destruct S2 as [S2 Hb].
    assert (Hba : In b (a :: l1))
      by (apply (Permutation_in b (Permutation_sym P)); now left).
    assert (Hab : In a (b :: l2))
      by (apply (Permutation_in a P); now left).
    assert (E : a = b).
    { destruct Hba as [Hba|Hba]; [assumption|].
      destruct Hab as [Hab|Hab]; [now symmetry|].
      rewrite Forall_forall in Ha, Hb.
      apply (NoDup_map_eq name (a :: l1) a b ND);
        [now left | now right |].
      apply String.leb_antisym; [apply (Ha b Hba) | apply (Hb a Hab)]. }
    subst b. f_equal. apply IH; try assumption.
    + now apply Permutation_cons_inv in P.
    + now inversion ND.
Qed.

(** X10.  When the names are unique, the answer of GET /all does not
    depend on the order in which the rows are stored. *)
Theorem get_all_cafes_order_free :
  forall (request : Request) (db1 db2 : Table),
    Permutation db1 db2 ->
    NoDup (map name db1) ->
    fst (get_all_cafes request db1) = fst (get_all_cafes request db2).
Proof.
  intros request db1 db2 P ND. unfold get_all_cafes, select_all. simpl.
  replace (order_by_name db2) with (order_by_name db1); [reflexivity|].
  apply sorted_by_name_unique; try apply order_by_name_sorted.
  - eapply perm_trans; [apply order_by_name_perm|].
    eapply perm_trans; [exact P | apply Permutation_sym, order_by_name_perm].
  - apply (Permutation_NoDup (l := map name db1)); [|exact ND].
    apply Permutation_map, Permutation_sym, order_by_name_perm.
Qed.

Lemma get_all_cafes_order_free_witness :
  Permutation sample_db [alba; moes; joes]
  /\ NoDup (map name sample_db)
  /\ fst (get_all_cafes (with_args []) sample_db)
     = fst (get_all_cafes (with_args []) [alba; moes; joes]).
Proof.
  assert (P : Permutation sample_db [alba; moes; joes]).
  { unfold sample_db.
    apply perm_trans with [alba; joes; moes].
    - apply Permutation_sym. apply (Permutation_cons_app [joes; moes] [] alba).
      apply Permutation_refl.
    - apply perm_skip, perm_swap. }
  assert (ND : NoDup (map name sample_db)).
  { simpl. repeat constructor; simpl; intuition discriminate. }
  split; [exact P|]. split; [exact ND|].
  exact (get_all_cafes_order_free (with_args []) sample_db _ P ND).
Defined.

Lemma filter_insert_by_name (keep : Cafe -> bool) (c : Cafe) (rows : list Cafe) :
  StronglySorted name_le rows ->
  filter keep (insert_by_name c rows) =
  if keep c then insert_by_name c (filter keep rows) else filter keep rows.
Proof.
  induction 1 as [|d rows Hs IH Hall]; simpl.
  - now destruct (keep c).
  - destruct (String.leb (name c) (name d)) eqn:E; simpl.
    + destruct (keep c); [|reflexivity].
      symmetry. apply insert_by_name_head.
      assert (Hc : Forall (name_le c) (d :: rows)).
      { constructor; [exact E|]. eapply Forall_impl; [|exact Hall].
        intros e He. now apply name_le_trans with d. }
      rewrite Forall_forall in *. intros e He.
      apply Hc. change (In e (filter keep (d :: rows))) in He.
      now apply filter_In in He.
    + rewrite IH. destruct (keep d), (keep c); simpl; try reflexivity.
      now rewrite E.
Qed.

Lemma order_by_name_filter (keep : Cafe -> bool) (rows : list Cafe) :
  order_by_name (filter keep rows) = filter keep (order_by_name rows).
Proof.
  induction rows as [|c rows IH]; simpl; [reflexivity|].
  rewrite filter_insert_by_name by apply order_by_name_sorted.
  destruct (keep c); simpl; now rewrite IH.
Qed.

Lemma delete_cafe_table (cafe_id : Z) (closing : Request) (db : Table) :
  md_get "api-key" (args closing) = Some "TopSecretAPIKey" ->
  snd (delete_cafe cafe_id closing db)
  = filter (fun c => negb (Z.eqb (id c) cafe_id)) db.
Proof.
  intros Hkey. apply py_eq_true_iff in Hkey.
  unfold delete_cafe. rewrite Hkey. unfold get_or_404.
  destruct (session_get db cafe_id) as [c0|] eqn:G; simpl.
  - apply session_get_Some in G. destruct G as [_ <-]. reflexivity.
  - replace (snd _) with db by now destruct (sqlite_integer cafe_id).
    symmetry. apply filter_all_true. intros c Hc.
    apply negb_true_iff, Z.eqb_neq.
    exact (proj1 (session_get_None db cafe_id) G c Hc).
Qed.

(** X11.  After a DELETE /report-closed/<id> with the secret token, GET
    /all lists what it listed before, in the same order, without the rows
    of that id. *)
Theorem get_all_cafes_after_delete :
  forall (cafe_id : Z) (request closing : Request) (db : Table),
    md_get "api-key" (args closing) = Some "TopSecretAPIKey" ->
    exists rows,
      fst (get_all_cafes request db) =
        Ok (JObj [("cafes", JArr (map to_dict rows))], 200)
      /\ fst (get_all_cafes request (snd (delete_cafe cafe_id closing db))) =
           Ok (JObj [("cafes",
                      JArr (map to_dict
                              (filter (fun c => negb (Z.eqb (id c) cafe_id)) rows)))],
               200).
Proof.
  intros cafe_id request closing db Hkey.
  exists (order_by_name db). split; [reflexivity|].
  rewrite (delete_cafe_table cafe_id closing db Hkey).
  unfold get_all_cafes, select_all. simpl.
  now rewrite order_by_name_filter.
Qed.

Lemma get_all_cafes_after_delete_witness :
  md_get "api-key" (args secret_request) = Some "TopSecretAPIKey"
  /\ fst (get_all_cafes (with_args []) (snd (delete_cafe 1 secret_request sample_db)))
     = Ok (JObj [("cafes", JArr [to_dict alba; to_dict moes])], 200)
  /\ exists rows,
       fst (get_all_cafes (with_args []) sample_db) =
         Ok (JObj [("cafes", JArr (map to_dict rows))], 200)
       /\ fst (get_all_cafes (with_args [])
                 (snd (delete_cafe 1 secret_request sample_db))) =
            Ok (JObj [("cafes",
                       JArr (map to_dict
                               (filter (fun c => negb (Z.eqb (id c) 1)) rows)))],
                200).
Proof.
  split; [reflexivity|]. split; [reflexivity|].
  exact (get_all_cafes_after_delete 1 (with_args []) secret_request sample_db
           eq_refl).
Defined.

Lemma insert_by_name_map (f : Cafe -> Cafe) (c : Cafe) (rows : list Cafe) :
  (forall x, name (f x) = name x) ->
  insert_by_name (f c) (map f rows) = map f (insert_by_name c rows).
Proof.
  intros Hf. induction rows as [|d rows IH]; simpl; [reflexivity|].
  rewrite !Hf. destruct (String.leb (name c) (name d)); simpl;
    [reflexivity | now rewrite IH].
Qed.

Lemma order_by_name_map (f : Cafe -> Cafe) (rows : list Cafe) :
  (forall x, name (f x) = name x) ->
  order_by_name (map f rows) = map f (order_by_name rows).
Proof.
  intros Hf. induction rows as [|c rows IH]; simpl; [reflexivity|].
  rewrite IH. now apply insert_by_name_map.
Qed.

Lemma patch_new_price_table (cafe_id : Z) (patching : Request) (db : Table) :
  snd (patch_new_price cafe_id patching db)
  = map (fun c => if Z.eqb (id c) cafe_id
                  then set_coffee_price c (md_get "new_price" (args patching))
                  else c) db.
Proof.
  unfold patch_new_price, get_or_404.
  destruct (session_get db cafe_id) as [c0|] eqn:G; simpl.
  - apply session_get_Some in G. destruct G as [_ <-]. reflexivity.
  - replace (snd _) with db by now destruct (sqlite_integer cafe_id).
    rewrite <- (map_id db) at 1. apply map_ext_in. intros c Hc.
    destruct (Z.eqb_spec (id c) cafe_id) as [E|_]; [|reflexivity].
    now elim (proj1 (session_get_None db cafe_id) G c Hc).
Qed.

(** X12.  After a PATCH /update-price/<id>, GET /all lists the same rows
    in the same order as before, the rows of that id with the price of the
    request and all others untouched. *)
Theorem get_all_cafes_after_patch :
  forall (cafe_id : Z) (request patching : Request) (db : Table),
    exists rows,
      fst (get_all_cafes request db) =
        Ok (JObj [("cafes", JArr (map to_dict rows))], 200)
      /\ fst (get_all_cafes request (snd (patch_new_price cafe_id patching db))) =
           Ok (JObj [("cafes",
                      JArr (map to_dict
                              (map (fun c =>
                                      if Z.eqb (id c) cafe_id
                                      then {| id := id c; name := name c;
                                              map_url := map_url c;
                                              img_url := img_url c;
                                              location := location c;
                                              seats := seats c;
                                              has_toilet := has_toilet c;
                                              has_wifi := has_wifi c;
                                              has_sockets := has_sockets c;
                                              can_take_calls := can_take_calls c;
                                              coffee_price :=
                                                md_get "new_price" (args patching) |}
                                      else c)
                                   rows)))],
               200).
Proof.
  intros cafe_id request patching db.
  exists (order_by_name db). split; [reflexivity|].
  rewrite (patch_new_price_table cafe_id patching db).
  unfold get_all_cafes, select_all. simpl.
  rewrite order_by_name_map; [reflexivity|].
  intros x. now destruct (Z.eqb (id x) cafe_id).
Qed.

(** ** Serialization *)

Lemma to_dict_inj (c d : Cafe) : to_dict c = to_dict d -> c = d.
Proof.
  destruct c as [i1 n1 m1 g1 l1 s1 t1 w1 k1 a1 p1].
  destruct d as [i2 n2 m2 g2 l2 s2 t2 w2 k2 a2 p2].
  unfold to_dict. simpl. intros H. inversion H; subst.
  f_equal. destruct p1, p2; simpl in *; congruence.
Qed.

Lemma map_to_dict_inj (rows1 rows2 : list Cafe) :
  map to_dict rows1 = map to_dict rows2 -> rows1 = rows2.
Proof.
  revert rows2.
  induction rows1 as [|a l IH]; intros [|b rows2] E; cbn [map] in E;
    try discriminate; [reflexivity|].
  f_equal.
  - exact (to_dict_inj a b (f_equal (hd JNull) E)).
  - exact (IH rows2 (f_equal (@tl json) E)).
Qed.

(** X13.  [to_dict] keeps every column: two rows with the same dictionary
    are the same row, and two lists of rows with the same list of
    dictionaries are the same list. *)
Theorem to_dict_injective :
  (forall (c d : Cafe), to_dict c = to_dict d -> c = d)
  /\ (forall (rows1 rows2 : list Cafe),
        map to_dict rows1 = map to_dict rows2 -> rows1 = rows2).
Proof.
  split; [exact to_dict_inj | exact map_to_dict_inj].
Qed.

Lemma to_dict_injective_witness :
  to_dict joes = to_dict (set_coffee_price joes None)
  /\ joes = set_coffee_price joes None.
Proof.
  assert (H : to_dict joes = to_dict (set_coffee_price joes None)) by reflexivity.
  split; [exact H | exact (proj1 to_dict_injective _ _ H)].
Defined.

(** ** GET /random *)

(** X14.  Every stored row is the answer of GET /random for some draw of
    the generator. *)
Theorem get_random_cafe_reaches :
  forall (request : Request) (db : Table) (c : Cafe),
    In c db ->
    exists entropy,
      get_random_cafe entropy request db =
        (Ok (JObj [("cafe", to_dict c)], 200), db).
Proof.
  intros request db c Hin. exact (get_random_cafe_any request db c Hin).
Qed.

Lemma get_random_cafe_reaches_witness :
  In alba sample_db
  /\ exists entropy,
       get_random_cafe entropy (with_args []) sample_db =
         (Ok (JObj [("cafe", to_dict alba)], 200), sample_db).
Proof.
  assert (H : In alba sample_db) by (simpl; auto).
  split; [exact H|].
  exact (get_random_cafe_reaches (with_args []) sample_db alba H).
Defined.

(** ** The ids of the stored rows *)

Lemma next_id_positive (db : Table) :
  Forall (fun i => 1 <= i) (map id db) -> 1 <= next_id db.
Proof.
  unfold next_id. destruct (map id db) as [|x xs]; intros H; [lia|].
  inversion H; subst. destruct (fold_max_ge x xs) as [Hx _]. lia.
Qed.

Lemma StronglySorted_snoc (l : list Z) (y : Z) :
  StronglySorted Z.lt l -> Forall (fun x => x < y) l ->
  StronglySorted Z.lt (l ++ [y]).
Proof.
  induction 1 as [|x l Hs IH Hall]; intros Hy; simpl.
  - repeat constructor.
  - inversion Hy; subst. constructor; [now apply IH|].
    apply Forall_app. split; [assumption | now repeat constructor].
Qed.

Lemma StronglySorted_map_filter (keep : Cafe -> bool) (l : list Cafe) :
  StronglySorted Z.lt (map id l) -> StronglySorted Z.lt (map id (filter keep l)).
Proof.
  induction l as [|c l IH]; simpl; intros H; [constructor|].
  apply StronglySorted_inv in H. destruct H as [Hs Hall].
  destruct (keep c); simpl; [|now apply IH].
  constructor; [now apply IH|].
  rewrite Forall_forall in *. intros i Hi. apply Hall.
  apply in_map_iff in Hi. destruct Hi as (d & <- & Hd).
  apply in_map. now apply filter_In in Hd.
Qed.

Lemma Forall_map_filter (P : Z -> Prop) (keep : Cafe -> bool) (l : list Cafe) :
  Forall P (map id l) -> Forall P (map id (filter keep l)).
Proof.
  rewrite !Forall_forall. intros H i Hi. apply H.
  apply in_map_iff in Hi. destruct Hi as (d & <- & Hd).
  apply in_map. now apply filter_In in Hd.
Qed.

Lemma dispatch_ids (call : Call) (request : Request) (db : Table) :
  StronglySorted Z.lt (map id db) /\ Forall (fun i => 1 <= i) (map id db) ->
  StronglySorted Z.lt (map id (snd (dispatch call request db)))
  /\ Forall (fun i => 1 <= i) (map id (snd (dispatch call request db))).
Proof.
  intros [Hs Hp]. destruct call as [entropy| | | |cafe_id|cafe_id]; simpl.
  - now split.
  - now split.
  - unfold get_cafe_at_location. destruct (filter _ _); now split.
  - destruct (post_new_cafe_cases request db) as [[r Hr]|E];
      [|rewrite E; now split].
    destruct (post_new_cafe_ok request db r Hr)
      as (n & m & i & l & s & _ & _ & _ & _ & _ & _ & E).
    rewrite E. simpl snd. rewrite map_app. simpl. split.
    + apply StronglySorted_snoc; [assumption|].
      rewrite Forall_forall. intros x Hx. apply in_map_iff in Hx.
      destruct Hx as (d & <- & Hd). now apply next_id_fresh.
    + apply Forall_app. split; [assumption|].
      constructor; [now apply next_id_positive | constructor].
  - rewrite patch_new_price_table. rewrite map_map.
    rewrite (map_ext _ id); [now split|].
    intros c. now destruct (Z.eqb (id c) (Z.of_N cafe_id)).
  - unfold delete_cafe. destruct (py_eq _ _); [|now split].
    destruct (get_or_404 db (Z.of_N cafe_id)); simpl; [|now split|now split].
    split; [now apply StronglySorted_map_filter | now apply Forall_map_filter].
Qed.

(** X15.  Whatever requests were served since the table was empty, the
    stored ids are positive and strictly increasing in storage order: a new
    row always gets an id above every stored one, and no request changes
    the id of a row. *)
Theorem serve_ids_ascending :
  forall (calls : list (Call * Request)),
    StronglySorted Z.lt (map id (serve calls []))
    /\ Forall (fun i => 1 <= i) (map id (serve calls [])).
Proof.
  intros calls.
  assert (H : forall db,
             StronglySorted Z.lt (map id db) /\ Forall (fun i => 1 <= i) (map id db) ->
             StronglySorted Z.lt (map id (serve calls db))
             /\ Forall (fun i => 1 <= i) (map id (serve calls db))).
  { induction calls as [|[call request] calls IH]; intros db Hdb; simpl.
    - exact Hdb.
    - apply IH. now apply dispatch_ids. }
  apply H. split; constructor.
Qed.

(** ** GET /search after a price update *)

Lemma filter_map_commute {A : Type} (keep : A -> bool) (f : A -> A) (l : list A) :
  (forall x, keep (f x) = keep x) ->
  filter keep (map f l) = map f (filter keep l).
Proof.
  intros H. induction l as [|a l IH]; simpl; [reflexivity|].
  rewrite H. destruct (keep a); simpl; now rewrite IH.
Qed.

(** X16.  A PATCH /update-price never changes what GET /search finds: for
    every [loc], the search answers with the same status after the update
    as before, and when it answers 200 it lists the same rows in the same
    order, the rows of the patched id with the new price. *)
Theorem get_cafe_at_location_after_patch :
  forall (cafe_id : Z) (request patching : Request) (db : Table),
    status_code (fst (get_cafe_at_location request
                        (snd (patch_new_price cafe_id patching db))))
    = status_code (fst (get_cafe_at_location request db))
    /\ forall rows,
         fst (get_cafe_at_location request db) =
           Ok (JObj [("cafes", JArr (map to_dict rows))], 200) ->
         fst (get_cafe_at_location request
                (snd (patch_new_price cafe_id patching db))) =
           Ok (JObj [("cafes",
                      JArr (map to_dict
                              (map (fun c =>
                                      if Z.eqb (id c) cafe_id
                                      then {| id := id c; name := name c;
                                              map_url := map_url c;
                                              img_url := img_url c;
                                              location := location c;
                                              seats := seats c;
                                              has_toilet := has_toilet c;
                                              has_wifi := has_wifi c;
                                              has_sockets := has_sockets c;
                                              can_take_calls := can_take_calls c;
                                              coffee_price :=
                                                md_get "new_price" (args patching) |}
                                      else c)
                                   rows)))],
               200).
Proof.
  intros cafe_id request patching db.
  rewrite (patch_new_price_table cafe_id patching db).
  unfold get_cafe_at_location, select_all.
  rewrite filter_map_commute.
  2:{ intros x. unfold location_is.
      destruct (md_get "loc" (args request)); [|reflexivity].
      now destruct (Z.eqb (id x) cafe_id). }
  destruct (filter (location_is (md_get "loc" (args request))) db) as [|r found];
    simpl.
  - split; [reflexivity | discriminate].
  - split; [reflexivity|]. intros rows H.
    assert (E : map to_dict (r :: found) = map to_dict rows)
      by (simpl; unfold jsonify in H; congruence).
    assert (Hrows : r :: found = rows) by now apply map_to_dict_inj.
    now rewrite <- Hrows.
Qed.

Lemma get_cafe_at_location_after_patch_witness :
  fst (get_cafe_at_location (with_args [("loc", "Springfield")]) sample_db) =
    Ok (JObj [("cafes", JArr (map to_dict [joes; alba]))], 200)
  /\ fst (get_cafe_at_location (with_args [("loc", "Springfield")])
            (snd (patch_new_price 3 (with_args [("new_price", "4")]) sample_db))) =
       Ok (JObj [("cafes",
                  JArr [to_dict joes; to_dict (set_coffee_price alba (Some "4"))])],
           200).
Proof.
  assert (H : fst (get_cafe_at_location (with_args [("loc", "Springfield")])
                     sample_db) =
              Ok (JObj [("cafes", JArr (map to_dict [joes; alba]))], 200))
    by reflexivity.
  split; [exact H|].
  exact (proj2 (get_cafe_at_location_after_patch 3
                  (with_args [("loc", "Springfield")])
                  (with_args [("new_price", "4")]) sample_db) _ H).
Defined.
